(** * NetraAI risk scoring engine: a shallow embedding of
      [backend/risk_engine.py] and the properties of its specification.

    Conventions of the embedding.
    - A pandas table is the list of its rows, in row order; a row is a record
      with one field per column.  A boolean mask [df[mask]] is [filter].
    - Python floats are modelled by exact rationals [Q]; equality of computed
      scores is [Qeq] ([==]), a returned literal is compared with [=].
    - A Python exception is [None] in the option monad ([.iloc[0]] on an
      empty selection raises [IndexError]).
    - The networkx graph is the pair of its two dictionaries [_node] and
      [_adj], as finite maps.
    - [community_louvain.best_partition] is an external library routine; it
      is a section variable. *)

From Stdlib Require Import QArith Qminmax Lqa.
From stdpp Require Import gmap strings list fin_maps pretty sorting.

Open Scope string_scope.
Open Scope list_scope.

(** ** Numbers *)

Definition Qnat (n : nat) : Q := inject_Z (Z.of_nat n).

(** [x > y] and [x >= y] on floats. *)
Definition Qgt_bool (x y : Q) : bool := negb (Qle_bool x y).
Definition Qge_bool (x y : Q) : bool := Qle_bool y x.

(** [int(x)]: truncation towards zero. *)
Definition Qtrunc (x : Q) : Z := Z.quot (Qnum x) (Zpos (Qden x)).

(** [sum(xs)]: starts from 0 and adds from the left. *)
Definition Qsum (xs : list Q) : Q := fold_left Qplus xs 0%Q.

(** [Series.mean()]; pandas gives NaN on an empty series, the engine only
    takes the mean of non-empty ones. *)
Definition mean (xs : list Q) : Q := (Qsum xs / Qnat (length xs))%Q.

(** The clamp of the specification, [clamp(x, lo, hi)]. *)
Definition clamp (x lo hi : Q) : Q := Qmax lo (Qmin x hi).

(** ** Tables *)

Record Company := {
  company_id : string;
  company_name : string;
  registration_year : Z;
  industry_type : string;
  address : string;
  company_fraud_label : Z }.

Record Director := {
  director_id : string;
  director_name : string;
  age : Z;
  director_fraud_label : Z }.

Record Tender := {
  tender_id : string;
  department_id : string;
  contract_value : Q;
  year : Z;
  winning_company_id : string;
  tender_fraud_label : Z }.

Record Relationship := {
  source_id : string;
  target_id : string;
  relationship_type : string }.

(** The [data] dictionary handed to the constructor. *)
Record Data := {
  data_companies : list Company;
  data_directors : list Director;
  data_tenders : list Tender;
  data_relationships : list Relationship }.

(** ** models.py *)

Inductive RiskCategory := LOW | MEDIUM | HIGH.

Definition RiskCategory_value (c : RiskCategory) : string :=
  match c with LOW => "Low" | MEDIUM => "Medium" | HIGH => "High" end.

Record RiskIndicator := {
  indicator : string;
  severity : string;
  description : string }.

(** ** The networkx graph *)

Inductive AttrVal := VStr (s : string) | VInt (z : Z) | VNum (q : Q).

Record Graph := {
  _node : gmap string (gmap string AttrVal);
  _adj : gmap string (gmap string string) }.

Definition nx_Graph : Graph := {| _node := ∅; _adj := ∅ |}.

(** [n in G] *)
Definition has_node (G : Graph) (n : string) : bool :=
  match _node G !! n with Some _ => true | None => false end.

(** [G.add_node(n, **attr)]: a new node gets [attr] and an empty adjacency;
    an existing node has its attributes updated. *)
Definition add_node (n : string) (attr : gmap string AttrVal) (G : Graph) : Graph :=
  match _node G !! n with
  | None => {| _node := <[n := attr]> (_node G); _adj := <[n := ∅]> (_adj G) |}
  | Some old => {| _node := <[n := attr ∪ old]> (_node G); _adj := _adj G |}
  end.

(** [G.add_edge(u, v, relationship_type=t)]: endpoints that are not nodes yet
    are created, without attributes; the edge data is stored on both sides. *)
Definition ensure_node (n : string) (G : Graph) : Graph :=
  match _node G !! n with
  | None => {| _node := <[n := ∅]> (_node G); _adj := <[n := ∅]> (_adj G) |}
  | Some _ => G
  end.

Definition add_edge (u v t : string) (G : Graph) : Graph :=
  let G := ensure_node v (ensure_node u G) in
  {| _node := _node G;
     _adj := alter (insert u t) v (alter (insert v t) u (_adj G)) |}.

(** [v in G[u]]: the two nodes are joined by an edge. *)
Definition adj_rel (A : gmap string (gmap string string)) (u v : string) : Prop :=
  ∃ nbrs, A !! u = Some nbrs ∧ is_Some (nbrs !! v).

Definition adjacent (G : Graph) (u v : string) : Prop := adj_rel (_adj G) u v.

(** networkx keeps the two dictionaries on the same keys. *)
Definition graph_wf (G : Graph) : Prop :=
  ∀ n, is_Some (_node G !! n) ↔ is_Some (_adj G !! n).

(** [G.degree(n)]: the number of neighbours, a self-loop counting twice. *)
Definition degree (G : Graph) (n : string) : nat :=
  match _adj G !! n with
  | Some nbrs => size nbrs + (match nbrs !! n with Some _ => 1 | None => 0 end)
  | None => 0
  end.

(** [dict(G.degree()).values()] *)
Definition degrees (G : Graph) : list nat :=
  degree G <$> (map_to_list (_node G)).*1.

Definition number_of_nodes (G : Graph) : nat := size (_node G).

(** [row.to_dict()] *)
Definition company_to_dict (r : Company) : gmap string AttrVal :=
  list_to_map [("company_id", VStr (company_id r)); ("name", VStr (company_name r));
               ("registration_year", VInt (registration_year r));
               ("industry_type", VStr (industry_type r));
               ("address", VStr (address r));
               ("fraud_label", VInt (company_fraud_label r))].

Definition director_to_dict (r : Director) : gmap string AttrVal :=
  list_to_map [("director_id", VStr (director_id r)); ("name", VStr (director_name r));
               ("age", VInt (age r)); ("fraud_label", VInt (director_fraud_label r))].

Definition tender_to_dict (r : Tender) : gmap string AttrVal :=
  list_to_map [("tender_id", VStr (tender_id r));
               ("department_id", VStr (department_id r));
               ("contract_value", VNum (contract_value r));
               ("year", VInt (year r));
               ("winning_company_id", VStr (winning_company_id r));
               ("fraud_label", VInt (tender_fraud_label r))].

(** ** RiskScoringEngine *)

Record RiskScoringEngine := {
  companies : list Company;
  directors : list Director;
  tenders : list Tender;
  relationships : list Relationship;
  graph : Graph }.

Definition add_company_nodes (rows : list Company) (G : Graph) : Graph :=
  fold_left (λ G row,
    add_node (company_id row) (<["type" := VStr "company"]> (company_to_dict row)) G)
    rows G.

Definition add_director_nodes (rows : list Director) (G : Graph) : Graph :=
  fold_left (λ G row,
    add_node (director_id row) (<["type" := VStr "director"]> (director_to_dict row)) G)
    rows G.

Definition add_tender_nodes (rows : list Tender) (G : Graph) : Graph :=
  fold_left (λ G row,
    add_node (tender_id row) (<["type" := VStr "tender"]> (tender_to_dict row)) G)
    rows G.

Definition add_edges (rows : list Relationship) (G : Graph) : Graph :=
  fold_left (λ G row,
    add_edge (source_id row) (target_id row) (relationship_type row) G)
    rows G.

Definition _build_networkx_graph (cs : list Company) (ds : list Director)
    (ts : list Tender) (rs : list Relationship) : Graph :=
  add_edges rs (add_tender_nodes ts (add_director_nodes ds (add_company_nodes cs nx_Graph))).

(** [RiskScoringEngine(data)].  A constructor returns the object or raises,
    [None] standing for a raised exception; the body has no raising path:
    [add_node] and [add_edge] accept every id. *)
Definition __init__ (data : Data) : option RiskScoringEngine :=
  Some {| companies := data_companies data;
          directors := data_directors data;
          tenders := data_tenders data;
          relationships := data_relationships data;
          graph := _build_networkx_graph (data_companies data) (data_directors data)
                     (data_tenders data) (data_relationships data) |}.

(** [df.iloc[0]] *)
Definition iloc0 {A} (rows : list A) : option A := head rows.

Section Engine.
Variable self : RiskScoringEngine.

(** The inner selection of [_check_shared_directors]: the targets of the
    DIRECTOR_OF rows of [director], the company itself left out. *)
Definition other_companies (cid director : string) : list string :=
  target_id <$>
    filter (λ r, source_id r = director ∧ relationship_type r = "DIRECTOR_OF"
                 ∧ target_id r ≠ cid) (relationships self).

(** The loop of [_check_shared_directors] filling the set [shared_companies]. *)
Definition shared_companies (cid : string) (director_ids : list string) : gset string :=
  fold_left (λ shared director, shared ∪ list_to_set (other_companies cid director))
            director_ids ∅.

Definition _check_shared_directors (cid : string) : Q :=
  let director_rels :=
    filter (λ r, target_id r = cid ∧ relationship_type r = "DIRECTOR_OF")
           (relationships self) in
  if (length director_rels =? 0)%nat then 0%Q else
  let director_ids := source_id <$> director_rels in
  let shared_companies := shared_companies cid director_ids in
  Qmin (Qnat (size shared_companies) / 10.0) 1.0.

Definition _check_tender_patterns (cid : string) : Q :=
  let won_tenders :=
    filter (λ r, source_id r = cid ∧ relationship_type r = "WON") (relationships self) in
  if (length won_tenders =? 0)%nat then 0%Q else
  let tender_ids := target_id <$> won_tenders in
  let tender_values :=
    contract_value <$> filter (λ t, tender_id t ∈ tender_ids) (tenders self) in
  if (length tender_values =? 0)%nat then 0%Q else
  let avg_value := mean tender_values in
  let overall_mean := mean (contract_value <$> tenders self) in
  let value_ratio := if Qgt_bool overall_mean 0 then (avg_value / overall_mean)%Q else 1.0%Q in
  let win_frequency := (Qnat (length won_tenders) / Qnat (length (tenders self)))%Q in
  Qmin ((value_ratio - 1.0) * 0.5 + win_frequency * 2.0) 1.0.

Definition _calculate_centrality (entity_id : string) : Q :=
  if negb (has_node (graph self) entity_id) then 0%Q else
  let degree := degree (graph self) entity_id in
  let max_degree :=
    if (0 <? number_of_nodes (graph self))%nat then max_list (degrees (graph self)) else 1%nat in
  if (0 <? max_degree)%nat then (Qnat degree / Qnat max_degree)%Q else 0%Q.

Definition _check_shell_indicators (cid : string) : option Q :=
  company ← iloc0 (filter (λ c, company_id c = cid) (companies self));
  let same_address :=
    filter (λ c, address c = address company ∧ company_id c ≠ cid) (companies self) in
  let same_year :=
    filter (λ c, registration_year c = registration_year company ∧ company_id c ≠ cid)
           (companies self) in
  let address_score := Qmin (Qnat (length same_address) / 5.0) 1.0 in
  let year_score := Qmin (Qnat (length same_year) / 10.0) 0.5 in
  Some (address_score + year_score)%Q.

Definition _calculate_confidence (entity_id : string) : Q :=
  if negb (has_node (graph self) entity_id) then 0.3%Q else
  let degree := degree (graph self) entity_id in
  Qmin (0.5 + Qnat degree / 20.0) 1.0.

(** The four [RiskIndicator(...)] values built by
    [calculate_company_risk_score]. *)
Definition shared_directors_indicator (shared_director_score : Q) : RiskIndicator :=
  {| indicator := "Shared Directors";
     severity := if Qgt_bool shared_director_score 0.6 then "High" else "Medium";
     description := "Shares directors with "
                    +:+ pretty (Qtrunc (shared_director_score * 10))
                    +:+ " competing bidders" |}.

Definition win_pattern_indicator (win_pattern_score : Q) : RiskIndicator :=
  {| indicator := "Suspicious Win Pattern";
     severity := if Qgt_bool win_pattern_score 0.7 then "High" else "Medium";
     description := "Consecutive high-value tender wins above network mean" |}.

Definition centrality_indicator : RiskIndicator :=
  {| indicator := "High Network Centrality";
     severity := "Medium";
     description := "Dense cluster centrality indicating potential collusion" |}.

Definition shell_indicator : RiskIndicator :=
  {| indicator := "Shell Company Indicators";
     severity := "High";
     description := "Shared address and registration year with multiple entities" |}.

Definition calculate_company_risk_score (cid : string)
    : option (Q * Q * list RiskIndicator) :=
  let indicators : list RiskIndicator := [] in
  let risk_factors : list Q := [] in
  company ← iloc0 (filter (λ c, company_id c = cid) (companies self));
  (* Factor 1: shared directors *)
  let shared_director_score := _check_shared_directors cid in
  let indicators :=
    if Qgt_bool shared_director_score 0.3
    then indicators ++ [shared_directors_indicator shared_director_score]
    else indicators in
  let risk_factors := risk_factors ++ [(shared_director_score * 0.25)%Q] in
  (* Factor 2: tender win patterns *)
  let win_pattern_score := _check_tender_patterns cid in
  let indicators :=
    if Qgt_bool win_pattern_score 0.4
    then indicators ++ [win_pattern_indicator win_pattern_score]
    else indicators in
  let risk_factors := risk_factors ++ [(win_pattern_score * 0.30)%Q] in
  (* Factor 3: network centrality *)
  let centrality_score := _calculate_centrality cid in
  let indicators :=
    if Qgt_bool centrality_score 0.5
    then indicators ++ [centrality_indicator]
    else indicators in
  let risk_factors := risk_factors ++ [(centrality_score * 0.20)%Q] in
  (* Factor 4: shell company indicators *)
  shell_score ← _check_shell_indicators cid;
  let indicators :=
    if Qgt_bool shell_score 0.5
    then indicators ++ [shell_indicator]
    else indicators in
  let risk_factors := risk_factors ++ [(shell_score * 0.25)%Q] in
  let risk_score := Qmin (Qsum risk_factors) 1.0 in
  let confidence := _calculate_confidence cid in
  Some (risk_score, confidence, indicators).

Definition get_risk_category (risk_score : Q) : RiskCategory :=
  if Qge_bool risk_score 0.7 then HIGH
  else if Qge_bool risk_score 0.4 then MEDIUM
  else LOW.

End Engine.

(** ** Order on categories and sample snapshots *)

Definition category_rank (c : RiskCategory) : nat :=
  match c with LOW => 0 | MEDIUM => 1 | HIGH => 2 end.

Definition mkCompany (id addr : string) (yr label : Z) : Company :=
  {| company_id := id; company_name := id; registration_year := yr;
     industry_type := "Construction"; address := addr; company_fraud_label := label |}.

Definition mkTender (id : string) (value : Q) : Tender :=
  {| tender_id := id; department_id := "DEPT_01"; contract_value := value;
     year := 2020; winning_company_id := ""; tender_fraud_label := 0 |}.

Definition mkRel (s t ty : string) : Relationship :=
  {| source_id := s; target_id := t; relationship_type := ty |}.

(** Three companies directed by the single director DIR_X. *)
Definition shared_director_data : Data :=
  {| data_companies := [mkCompany "COMP_A" "1 Main St" 2001 0;
                        mkCompany "COMP_B" "2 Oak St" 2002 0;
                        mkCompany "COMP_C" "3 Elm St" 2003 0];
     data_directors := [{| director_id := "DIR_X"; director_name := "X";
                           age := 50; director_fraud_label := 0 |}];
     data_tenders := [];
     data_relationships := [mkRel "DIR_X" "COMP_A" "DIRECTOR_OF";
                            mkRel "DIR_X" "COMP_B" "DIRECTOR_OF";
                            mkRel "DIR_X" "COMP_C" "DIRECTOR_OF"] |}.

(** A tender issued by a department: departments are in no node table. *)
Definition issued_by_data : Data :=
  {| data_companies := [];
     data_directors := [];
     data_tenders := [mkTender "TEND_0001" 1000];
     data_relationships := [mkRel "TEND_0001" "DEPT_01" "ISSUED_BY"] |}.

(** ** Dangling relationship rows *)

(** The ids of the company, director and tender tables. *)
Definition table_ids (data : Data) : list string :=
  (company_id <$> data_companies data) ++ (director_id <$> data_directors data)
  ++ (tender_id <$> data_tenders data).

(** A relationship row with an endpoint that is in none of the three tables. *)
Definition dangling (data : Data) (r : Relationship) : Prop :=
  source_id r ∉ table_ids data ∨ target_id r ∉ table_ids data.

(** ** Relations of the specification *)

(** [d] is linked to [c] by a DIRECTOR_OF row. *)
Definition is_director_of (self : RiskScoringEngine) (d c : string) : Prop :=
  ∃ r, r ∈ relationships self ∧ source_id r = d ∧ target_id r = c
       ∧ relationship_type r = "DIRECTOR_OF".

(** ** Cluster detection *)

Section ClusterDetector.
(** [community_louvain.best_partition]: the partition of the nodes, a
    dictionary from node to community id, in its iteration order. *)
Variable best_partition : Graph → list (string * Z).
Variable self : RiskScoringEngine.

(** [communities[comm_id].append(node)], the entry being created when the
    community id is new; the dictionary keeps insertion order. *)
Fixpoint communities_append (comm_id : Z) (node : string)
    (communities : list (Z * list string)) : list (Z * list string) :=
  match communities with
  | [] => [(comm_id, [node])]
  | (c, members) :: rest =>
      if decide (c = comm_id) then (c, members ++ [node]) :: rest
      else (c, members) :: communities_append comm_id node rest
  end.

Definition group_by_community (partition : list (string * Z)) : list (Z * list string) :=
  fold_left (λ communities '(node, comm_id), communities_append comm_id node communities)
            partition [].

(** [self.companies[self.companies['company_id'] == m]['fraud_label'].iloc[0]] *)
Definition fraud_label_of (m : string) : option Z :=
  company_fraud_label <$> iloc0 (filter (λ c, company_id c = m) (companies self)).

(** [sum(1 for m in company_members if fraud_label_of(m) == 1)] *)
Fixpoint fraud_count (company_members : list string) : option nat :=
  match company_members with
  | [] => Some 0%nat
  | m :: rest =>
      label ← fraud_label_of m;
      k ← fraud_count rest;
      Some ((if decide (label = 1%Z) then 1 else 0) + k)%nat
  end.

(** The loop over [communities.items()] that fills [fraud_clusters]. *)
Fixpoint filter_fraud_clusters (communities : list (Z * list string))
    : option (list (list string)) :=
  match communities with
  | [] => Some []
  | (comm_id, members) :: rest =>
      let company_members := filter (λ m, String.prefix "COMP_" m = true) members in
      if (length company_members <? 3)%nat then filter_fraud_clusters rest
      else
        fraud_count ← fraud_count company_members;
        fraud_clusters ← filter_fraud_clusters rest;
        Some (if Qgt_bool (Qnat fraud_count / Qnat (length company_members)) 0.5
              then company_members :: fraud_clusters
              else fraud_clusters)
  end.

Definition detect_fraud_clusters : option (list (list string)) :=
  let partition := best_partition (graph self) in
  let communities := group_by_community partition in
  filter_fraud_clusters communities.

End ClusterDetector.

(** The members of a cluster that carry fraud label 1. *)
Definition fraud_members (self : RiskScoringEngine) (cluster : list string) : list string :=
  filter (λ m, fraud_label_of self m = Some 1%Z) cluster.

(** Four companies in one community with a director, three of them labelled
    fraudulent, and three clean companies in another. *)
Definition cluster_data : Data :=
  {| data_companies := [mkCompany "COMP_1" "1 Main St" 2001 1;
                        mkCompany "COMP_2" "2 Oak St" 2002 1;
                        mkCompany "COMP_3" "3 Elm St" 2003 1;
                        mkCompany "COMP_4" "4 Park St" 2004 0;
                        mkCompany "COMP_5" "5 Main St" 2005 0;
                        mkCompany "COMP_6" "6 Oak St" 2006 0;
                        mkCompany "COMP_7" "7 Elm St" 2007 0];
     data_directors := [{| director_id := "DIR_1"; director_name := "D";
                           age := 40; director_fraud_label := 1 |}];
     data_tenders := [];
     data_relationships := [mkRel "DIR_1" "COMP_1" "DIRECTOR_OF";
                            mkRel "DIR_1" "COMP_2" "DIRECTOR_OF";
                            mkRel "DIR_1" "COMP_3" "DIRECTOR_OF";
                            mkRel "DIR_1" "COMP_4" "DIRECTOR_OF"] |}.

Definition cluster_partition (G : Graph) : list (string * Z) :=
  [("COMP_1", 0%Z); ("COMP_2", 0%Z); ("COMP_3", 0%Z); ("COMP_4", 0%Z);
   ("COMP_5", 1%Z); ("COMP_6", 1%Z); ("COMP_7", 1%Z); ("DIR_1", 0%Z)].

(** ** The win-pattern factor in the words of the specification *)

Section WinPattern.
Variable self : RiskScoringEngine.
Variable cid : string.

(** The WON rows of the company: its wins. *)
Definition wins : list Relationship :=
  filter (λ r, source_id r = cid ∧ relationship_type r = "WON") (relationships self).

(** The contract values of the tenders the company won. *)
Definition won_values : list Q :=
  contract_value <$> filter (λ t, tender_id t ∈ target_id <$> wins) (tenders self).

(** The mean contract value across all tenders. *)
Definition overall_mean : Q := mean (contract_value <$> tenders self).

(** Value ratio, 1.0 when the denominator is zero. *)
Definition value_ratio_spec : Q :=
  if Qeq_bool overall_mean 0 then 1.0%Q else (mean won_values / overall_mean)%Q.

(** Value ratio as the code guards it: 1.0 unless the denominator is positive. *)
Definition value_ratio : Q :=
  if Qgt_bool overall_mean 0 then (mean won_values / overall_mean)%Q else 1.0%Q.

Definition win_frequency : Q := (Qnat (length wins) / Qnat (length (tenders self)))%Q.

(** The expression under the clamp. *)
Definition win_pattern_raw : Q := ((value_ratio - 1.0) * 0.5 + win_frequency * 2.0)%Q.

(** The factor as the specification words it: clamped to the unit interval,
    0.0 without wins. *)
Definition win_pattern_spec : Q :=
  if (length wins =? 0)%nat then 0%Q
  else clamp ((value_ratio_spec - 1.0) * 0.5 + win_frequency * 2.0) 0 1.0.

End WinPattern.

(** COMP_A wins one small tender out of ten; COMP_B wins four large ones. *)
Definition small_win_data : Data :=
  {| data_companies := [mkCompany "COMP_A" "1 Main St" 2001 0;
                        mkCompany "COMP_B" "2 Oak St" 2002 0];
     data_directors := [];
     data_tenders := [mkTender "TEND_01" 100; mkTender "TEND_02" 1100;
                      mkTender "TEND_03" 1100; mkTender "TEND_04" 1100;
                      mkTender "TEND_05" 1100; mkTender "TEND_06" 1100;
                      mkTender "TEND_07" 1100; mkTender "TEND_08" 1100;
                      mkTender "TEND_09" 1100; mkTender "TEND_10" 1100];
     data_relationships := [mkRel "COMP_A" "TEND_01" "WON";
                            mkRel "COMP_B" "TEND_02" "WON";
                            mkRel "COMP_B" "TEND_03" "WON";
                            mkRel "COMP_B" "TEND_04" "WON";
                            mkRel "COMP_B" "TEND_05" "WON"] |}.

(** ** The aggregate in the words of the specification *)

(** [0.25·shared_directors + 0.30·win_pattern + 0.20·centrality + 0.25·shell] *)
Definition weighted_sum (shared_directors win_pattern centrality shell : Q) : Q :=
  (0.25 * shared_directors + 0.30 * win_pattern + 0.20 * centrality + 0.25 * shell)%Q.

(** Five companies at one address, registered in five different years. *)
Definition shared_address_data : Data :=
  {| data_companies := [mkCompany "COMP_1" "9 Central St" 2001 0;
                        mkCompany "COMP_2" "9 Central St" 2002 0;
                        mkCompany "COMP_3" "9 Central St" 2003 0;
                        mkCompany "COMP_4" "9 Central St" 2004 0;
                        mkCompany "COMP_5" "9 Central St" 2005 0];
     data_directors := [];
     data_tenders := [];
     data_relationships := [] |}.

(** ** Rows joining two ids *)

(** Some relationship row has [u] and [v] as its two endpoints, in either
    direction. *)
Definition joined (rs : list Relationship) (u v : string) : Prop :=
  ∃ r, r ∈ rs ∧ ((source_id r = u ∧ target_id r = v) ∨ (source_id r = v ∧ target_id r = u)).

(** ** The batch scorer *)

(** One row of the frame returned by [calculate_all_risk_scores]. *)
Record RiskScoreRow := {
  row_company_id : string;
  row_risk_score : Q;
  row_confidence_score : Q;
  row_risk_category : string;
  row_indicator_count : nat }.

(** The body of the loop of [calculate_all_risk_scores]. *)
Definition risk_score_row (self : RiskScoringEngine) (company : Company)
    : option RiskScoreRow :=
  let company_id := company_id company in
  '(risk_score, confidence, indicators) ← calculate_company_risk_score self company_id;
  let risk_category := get_risk_category risk_score in
  Some {| row_company_id := company_id;
          row_risk_score := risk_score;
          row_confidence_score := confidence;
          row_risk_category := RiskCategory_value risk_category;
          row_indicator_count := length indicators |}.

Definition calculate_all_risk_scores (self : RiskScoringEngine)
    : option (list RiskScoreRow) :=
  mapM (risk_score_row self) (companies self).

(** A company that no relationship row mentions, beside one that wins a
    tender. *)
Definition isolated_data : Data :=
  {| data_companies := [mkCompany "COMP_A" "1 Main St" 2001 0;
                        mkCompany "COMP_B" "2 Oak St" 2002 0];
     data_directors := [];
     data_tenders := [mkTender "TEND_01" 500];
     data_relationships := [mkRel "COMP_B" "TEND_01" "WON"] |}.

(** ** Communities of a partition *)

(** The nodes that the partition puts in community [c], in the order of the
    partition. *)
Definition community_nodes (partition : list (string * Z)) (c : Z) : list string :=
  (filter (λ nc, nc.2 = c) partition).*1.

(** [company_members], the members with the company prefix. *)
Definition company_members (members : list string) : list string :=
  filter (λ m, String.prefix "COMP_" m = true) members.

(** A partition with a community of three ids with the company prefix, one
    of which is in no table. *)
Definition stray_partition (G : Graph) : list (string * Z) :=
  [("COMP_1", 0%Z); ("COMP_2", 0%Z); ("COMP_9", 0%Z)].

(** ** The directors of a company *)

(** [director_ids] in [_check_shared_directors]: the sources of the
    DIRECTOR_OF rows that point at the company. *)
Definition director_ids (self : RiskScoringEngine) (cid : string) : list string :=
  source_id <$> filter (λ r, target_id r = cid ∧ relationship_type r = "DIRECTOR_OF")
                       (relationships self).

(** * graph_loader.py and neo4j_connector.py *)

(** [_get_node_type], the same text in both classes. *)
Definition _get_node_type (entity_id : string) : string :=
  if String.prefix "COMP_" entity_id then "Company"
  else if String.prefix "DIR_" entity_id then "Director"
  else if String.prefix "TEND_" entity_id then "Tender"
  else if String.prefix "DEPT_" entity_id then "Department"
  else "Unknown".

(** * api.py and api_neo4j.py *)

Inductive EntityType := COMPANY | DIRECTOR | TENDER | DEPARTMENT.

Definition EntityType_value (t : EntityType) : string :=
  match t with
  | COMPANY => "Company" | DIRECTOR => "Director"
  | TENDER => "Tender" | DEPARTMENT => "Department"
  end.

(** What an endpoint can raise. *)
Inductive exn :=
  | HTTPException (status_code : Z) (detail : string)
  | IndexError
  | NameError (name : string).

Inductive result (A : Type) :=
  | Return (a : A)
  | Raise (e : exn).
Arguments Return {A} a.
Arguments Raise {A} e.

Definition result_bind {A B} (m : result A) (k : A → result B) : result B :=
  match m with Return a => k a | Raise e => Raise e end.

(** A call into the engine: its only exception is [IndexError]. *)
Definition engine_call {A} (o : option A) : result A :=
  match o with Some a => Return a | None => Raise IndexError end.

(** The module global [data_cache], with the keys the endpoints below read
    (the departments frame is stored and never read by them). *)
Record DataCache := {
  cache_companies : list Company;
  cache_directors : list Director;
  cache_tenders : list Tender;
  cache_relationships : list Relationship;
  cache_risk_scores : list RiskScoreRow }.




Record InvestigationSummary := {
  is_entity_id : string;
  is_entity_type : EntityType;
  is_risk_score : Q;
  is_risk_category : RiskCategory;
  is_key_findings : list string;
  is_risk_indicators : list RiskIndicator;
  is_connected_suspicious_entities : list string;
  is_recommendation : string }.

Record ClusterInfo := {
  ci_cluster_id : nat;
  ci_size : nat;
  ci_members : list string }.

(** [rel['target_id'] if rel['source_id'] == entity_id else rel['source_id']] *)
Definition other_end (entity_id : string) (rel : Relationship) : string :=
  if decide (source_id rel = entity_id) then target_id rel else source_id rel.

(** The rows that mention the entity at either end. *)
Definition connected_rows (relationships : list Relationship) (entity_id : string)
    : list Relationship :=
  filter (λ r, source_id r = entity_id ∨ target_id r = entity_id) relationships.

Definition recommendation_for (risk_category : RiskCategory) : string :=
  match risk_category with
  | HIGH => "IMMEDIATE INVESTIGATION RECOMMENDED: High-risk indicators detected. Recommend full audit and cross-reference with procurement records."
  | MEDIUM => "MONITORING REQUIRED: Medium-risk indicators present. Recommend enhanced due diligence and periodic review."
  | LOW => "STANDARD MONITORING: Low-risk profile. Continue routine oversight."
  end.

(** [load_data] of api.py and the CSV branch of [initialize_neo4j]: the
    frames read from the files, the engine built on them and its batch
    scores, stored in the module globals. *)
Definition load_data (csv : Data) : option (DataCache * RiskScoringEngine) :=
  risk_engine ← __init__ csv;
  risk_scores ← calculate_all_risk_scores risk_engine;
  Some ({| cache_companies := data_companies csv;
           cache_directors := data_directors csv;
           cache_tenders := data_tenders csv;
           cache_relationships := data_relationships csv;
           cache_risk_scores := risk_scores |}, risk_engine).

Section Endpoints.
Variable data_cache : DataCache.
Variable risk_engine : RiskScoringEngine.
Variable best_partition : Graph → list (string * Z).


(** [not other_risk.empty and other_risk.iloc[0]['risk_category'] == 'High'] *)
Definition is_high_risk (risk_scores : list RiskScoreRow) (other_id : string) : bool :=
  match filter (λ row, row_company_id row = other_id) risk_scores with
  | first :: _ => bool_decide (row_risk_category first = "High")
  | [] => false
  end.

(** The loop of api_neo4j.py, [generate_investigation_summary], that fills
    [suspicious_entities] from the batch scores. *)
Definition suspicious_entities (risk_scores : list RiskScoreRow)
    (entity_id : string) (connected : list Relationship) : list string :=
  filter (λ other_id,
            String.prefix "COMP_" other_id = true ∧
            is_high_risk risk_scores other_id = true)
         (other_end entity_id <$> connected).

(** The same loop in api.py, where the name [risk_scores] is bound neither
    in the function nor in the module: the first connected row whose other
    end has the company prefix raises [NameError]. *)
Fixpoint suspicious_entities_unbound (entity_id : string)
    (connected : list Relationship) : result (list string) :=
  match connected with
  | [] => Return []
  | rel :: rest =>
      if String.prefix "COMP_" (other_end entity_id rel)
      then Raise (NameError "risk_scores")
      else suspicious_entities_unbound entity_id rest
  end.

(** [generate_investigation_summary], with the loop as a parameter. *)
Definition investigation_summary
    (suspicious : string → list Relationship → result (list string))
    (entity_id : string) : result InvestigationSummary :=
  if negb (String.prefix "COMP_" entity_id)
  then Raise (HTTPException 400 "Only company investigations supported") else
  let companies := cache_companies data_cache in
  let company := filter (λ c, company_id c = entity_id) companies in
  if decide (company = []) then Raise (HTTPException 404 "Company not found") else
  result_bind (engine_call (calculate_company_risk_score risk_engine entity_id))
    (λ '(risk_score, confidence, indicators),
  let risk_category := get_risk_category risk_score in
  let key_findings := (λ ind, indicator ind +:+ ": " +:+ description ind) <$> indicators in
  let relationships := cache_relationships data_cache in
  let connected := connected_rows relationships entity_id in
  result_bind (suspicious entity_id connected) (λ suspicious_entities,
  let recommendation := recommendation_for risk_category in
  Return {| is_entity_id := entity_id;
            is_entity_type := COMPANY;
            is_risk_score := risk_score;
            is_risk_category := risk_category;
            is_key_findings := key_findings;
            is_risk_indicators := indicators;
            is_connected_suspicious_entities := take 10 suspicious_entities;
            is_recommendation := recommendation |})).

(** api_neo4j.py, [generate_investigation_summary]. *)
Definition generate_investigation_summary_neo4j (entity_id : string)
    : result InvestigationSummary :=
  investigation_summary
    (λ entity_id connected,
       Return (suspicious_entities (cache_risk_scores data_cache) entity_id connected))
    entity_id.

(** api.py, [generate_investigation_summary]. *)
Definition generate_investigation_summary (entity_id : string)
    : result InvestigationSummary :=
  investigation_summary suspicious_entities_unbound entity_id.

(** api.py, [get_fraud_clusters]: the list under "clusters" and the number
    under "total_clusters". *)
Definition get_fraud_clusters : result (list ClusterInfo * nat) :=
  result_bind (engine_call (detect_fraud_clusters best_partition risk_engine))
    (λ clusters,
  let result := imap (λ i cluster, {| ci_cluster_id := i;
                                      ci_size := length cluster;
                                      ci_members := take 10 cluster |}) clusters in
  Return (result, length clusters)).

End Endpoints.

(** api.py, [_get_entity_type]. *)
Definition _get_entity_type (entity_id : string) : EntityType :=
  if String.prefix "COMP_" entity_id then COMPANY
  else if String.prefix "DIR_" entity_id then DIRECTOR
  else if String.prefix "TEND_" entity_id then TENDER
  else if String.prefix "DEPT_" entity_id then DEPARTMENT
  else COMPANY.

(** A company tied to another company by a row, beside the usual rows. *)
Definition company_link_data : Data :=
  {| data_companies := [mkCompany "COMP_A" "1 Main St" 2001 0;
                        mkCompany "COMP_B" "2 Oak St" 2002 0];
     data_directors := [{| director_id := "DIR_X"; director_name := "X";
                           age := 50; director_fraud_label := 0 |}];
     data_tenders := [mkTender "TEND_01" 500];
     data_relationships := [mkRel "DIR_X" "COMP_A" "DIRECTOR_OF";
                            mkRel "COMP_A" "TEND_01" "WON";
                            mkRel "COMP_B" "COMP_A" "PARTNER_OF"] |}.

(** * neo4j_connector.py *)

(** The loop of [Neo4jConnector.detect_fraud_clusters] over the records of
    the query, each a seed id and the collected ids: a cluster is kept
    unless its sorted tuple has been seen. *)
Definition neo4j_cluster_step (state : list (list string) * gset (list string))
    (record : string * list string) : list (list string) * gset (list string) :=
  let '(clusters, seen) := state in
  let cluster := record.1 :: record.2 in
  let cluster_key := merge_sort String.le cluster in
  if decide (cluster_key ∉ seen)
  then (clusters ++ [cluster], {[cluster_key]} ∪ seen)
  else (clusters, seen).

Definition neo4j_detect_fraud_clusters (result : list (string * list string))
    : list (list string) :=
  (fold_left neo4j_cluster_step result ([], ∅)).1.

(** * gnn_model.py *)

Section GraphDataProcessor.
Variable data : Data.

(** [all_nodes] in [prepare_graph_data]. *)
Definition all_nodes : list string :=
  (company_id <$> data_companies data) ++ (director_id <$> data_directors data)
  ++ (tender_id <$> data_tenders data).

(** [{node: idx for idx, node in enumerate(all_nodes)}]: a later index
    replaces an earlier one of the same id. *)
Definition node_to_idx_from (start : nat) (nodes : list string)
    (acc : gmap string nat) : gmap string nat :=
  fold_left (λ m p, <[p.2 := p.1]> m) (zip (seq start (length nodes)) nodes) acc.

Definition node_to_idx : gmap string nat := node_to_idx_from 0 all_nodes ∅.

(** The body of the loop of [_build_edge_index]. *)
Definition edge_index_step (node_to_idx : gmap string nat)
    (edges : list (nat * nat)) (rel : Relationship) : list (nat * nat) :=
  match node_to_idx !! source_id rel, node_to_idx !! target_id rel with
  | Some source_idx, Some target_idx =>
      edges ++ [(source_idx, target_idx)] ++ [(target_idx, source_idx)]
  | _, _ => edges
  end.

(** [_build_edge_index], the list [edges] before it is turned into an
    array and transposed. *)
Definition _build_edge_index (node_to_idx : gmap string nat) : list (nat * nat) :=
  fold_left (edge_index_step node_to_idx) (data_relationships data) [].

End GraphDataProcessor.

(** * Properties *)

(** ** Comparisons and clamping *)

Lemma Qgt_bool_iff (x y : Q) : Qgt_bool x y = true ↔ (y < x)%Q.
Proof.
  unfold Qgt_bool. rewrite negb_true_iff, <- not_true_iff_false, Qle_bool_iff.
  split; [apply Qnot_le_lt | apply Qlt_not_le].
Qed.

Lemma Qgt_bool_false_iff (x y : Q) : Qgt_bool x y = false ↔ (x <= y)%Q.
Proof.
  unfold Qgt_bool. rewrite negb_false_iff. apply Qle_bool_iff.
Qed.

Lemma Qge_bool_iff (x y : Q) : Qge_bool x y = true ↔ (y <= x)%Q.
Proof. apply Qle_bool_iff. Qed.

Lemma Qge_bool_false_iff (x y : Q) : Qge_bool x y = false ↔ (x < y)%Q.
Proof.
  unfold Qge_bool. rewrite <- not_true_iff_false, Qle_bool_iff.
  split; [apply Qnot_le_lt | apply Qlt_not_le].
Qed.

Lemma Qnat_nonneg (n : nat) : (0 <= Qnat n)%Q.
Proof.
  unfold Qnat, Qle. simpl. lia.
Qed.

Lemma clamp_in_range (x lo hi : Q) : (lo <= hi → lo <= clamp x lo hi <= hi)%Q.
Proof.
  intros Hlh. unfold clamp. split.
  - apply Q.le_max_l.
  - apply Q.max_lub; [exact Hlh | apply Q.le_min_r].
Qed.

(** Above the lower bound, clamping is capping. *)
Lemma clamp_above (x lo hi : Q) : (lo <= x → lo <= hi → clamp x lo hi == Qmin x hi)%Q.
Proof.
  intros Hx Hlh. unfold clamp. apply Q.max_r. apply Q.min_glb; assumption.
Qed.

(** ** Selections *)

Lemma iloc0_filter_is_Some {A} (P : A → Prop) `{∀ x, Decision (P x)}
    (rows : list A) (x : A) :
  x ∈ rows → P x → is_Some (iloc0 (filter P rows)).
Proof.
  intros Hin HP. unfold iloc0. apply head_is_Some. intros Hnil.
  assert (Hx : x ∈ filter P rows) by (by apply list_elem_of_filter).
  rewrite Hnil in Hx. by apply elem_of_nil in Hx.
Qed.

(** ** Risk categories *)

Lemma get_risk_category_high (s : Q) : (0.7 <= s)%Q → get_risk_category s = HIGH.
Proof.
  intros H. unfold get_risk_category.
  apply Qge_bool_iff in H. rewrite H. reflexivity.
Qed.

Lemma get_risk_category_medium (s : Q) :
  (0.4 <= s)%Q → (s < 0.7)%Q → get_risk_category s = MEDIUM.
Proof.
  intros H1 H2. unfold get_risk_category.
  apply Qge_bool_iff in H1. apply Qge_bool_false_iff in H2.
  rewrite H2, H1. reflexivity.
Qed.

Lemma get_risk_category_low (s : Q) : (s < 0.4)%Q → get_risk_category s = LOW.
Proof.
  intros H. unfold get_risk_category.
  assert (H7 : (s < 0.7)%Q) by (eapply Qlt_trans; [exact H | reflexivity]).
  apply Qge_bool_false_iff in H, H7.
  rewrite H7, H. reflexivity.
Qed.

Lemma get_risk_category_cases (s : Q) :
  ((0.7 <= s)%Q ∧ get_risk_category s = HIGH) ∨
  ((0.4 <= s)%Q ∧ (s < 0.7)%Q ∧ get_risk_category s = MEDIUM) ∨
  ((s < 0.4)%Q ∧ get_risk_category s = LOW).
Proof.
  destruct (Qlt_le_dec s 0.7) as [H7 | H7].
  - destruct (Qlt_le_dec s 0.4) as [H4 | H4].
    + right; right. split; [exact H4 | by apply get_risk_category_low].
    + right; left. split; [exact H4 |]. split; [exact H7 |].
      by apply get_risk_category_medium.
  - left. split; [exact H7 | by apply get_risk_category_high].
Qed.

(** C9.  [get_risk_category] returns High when the score is at least 0.7,
    Medium when it is at least 0.4 and below 0.7, and Low below 0.4; equal
    scores get the same category (the mapping is a function of the score's
    value) and a larger score never gets a lower category. *)
Theorem get_risk_category_spec (s : Q) :
  ((0.7 <= s)%Q → get_risk_category s = HIGH) ∧
  ((0.4 <= s)%Q → (s < 0.7)%Q → get_risk_category s = MEDIUM) ∧
  ((s < 0.4)%Q → get_risk_category s = LOW) ∧
  (∀ s', s == s' → get_risk_category s = get_risk_category s') ∧
  (∀ s', (s <= s')%Q →
     (category_rank (get_risk_category s) ≤ category_rank (get_risk_category s'))%nat).
Proof.
  split; [apply get_risk_category_high |].
  split; [apply get_risk_category_medium |].
  split; [apply get_risk_category_low |].
  split.
  - intros s' Heq.
    destruct (get_risk_category_cases s) as [[H ->] | [[H1 [H2 ->]] | [H ->]]];
      symmetry.
    + apply get_risk_category_high. by rewrite <- Heq.
    + apply get_risk_category_medium; by rewrite <- Heq.
    + apply get_risk_category_low. by rewrite <- Heq.
  - intros s' Hle.
    destruct (get_risk_category_cases s) as [[H ->] | [[H1 [H2 ->]] | [H ->]]];
      destruct (get_risk_category_cases s') as [[H' ->] | [[H1' [H2' ->]] | [H' ->]]];
      simpl; try lia; exfalso.
    + apply (Qlt_irrefl s'). eapply Qlt_le_trans; [exact H2' |].
      eapply Qle_trans; [exact H | exact Hle].
    + apply (Qlt_irrefl s'). eapply Qlt_le_trans; [exact H' |].
      eapply Qle_trans; [| exact Hle]. eapply Qle_trans; [| exact H]. discriminate.
    + apply (Qlt_irrefl s'). eapply Qlt_le_trans; [exact H' |].
      eapply Qle_trans; [exact H1 | exact Hle].
Qed.

Lemma get_risk_category_spec_witness :
  get_risk_category 0.85 = HIGH ∧
  get_risk_category 0.5 = MEDIUM ∧
  get_risk_category 0.1 = LOW ∧
  get_risk_category 0.5 = get_risk_category (1 # 2) ∧
  (category_rank (get_risk_category 0.1) ≤ category_rank (get_risk_category 0.85))%nat.
Proof.
  split; [apply (proj1 (get_risk_category_spec 0.85)); discriminate |].
  split; [apply (proj1 (proj2 (get_risk_category_spec 0.5))); [discriminate | reflexivity] |].
  split; [apply (proj1 (proj2 (proj2 (get_risk_category_spec 0.1)))); reflexivity |].
  split; [apply (proj1 (proj2 (proj2 (proj2 (get_risk_category_spec 0.5))))); reflexivity |].
  apply (proj2 (proj2 (proj2 (proj2 (get_risk_category_spec 0.1))))); discriminate.
Defined.

(** ** The graph: which ids are nodes *)

Lemma has_node_is_Some (G : Graph) (n : string) :
  has_node G n = true ↔ is_Some (_node G !! n).
Proof.
  unfold has_node. destruct (_node G !! n); split; done.
Qed.

Lemma has_node_add_node (n m : string) (attr : gmap string AttrVal) (G : Graph) :
  has_node (add_node n attr G) m = true ↔ m = n ∨ has_node G m = true.
Proof.
  unfold has_node, add_node.
  destruct (_node G !! n) as [old|] eqn:En; simpl;
    (destruct (decide (n = m)) as [-> | Hne];
     [ rewrite lookup_insert_eq; split; [by left | done]
     | rewrite lookup_insert_ne by done;
       split; [by right | by intros [-> | ?]] ]).
Qed.

Lemma has_node_ensure_node (n m : string) (G : Graph) :
  has_node (ensure_node n G) m = true ↔ m = n ∨ has_node G m = true.
Proof.
  unfold has_node, ensure_node.
  destruct (_node G !! n) as [a|] eqn:En; simpl.
  - split; [by right |]. intros [-> | ?]; [by rewrite En | done].
  - destruct (decide (n = m)) as [-> | Hne].
    + rewrite lookup_insert_eq. split; [by left | done].
    + rewrite lookup_insert_ne by done. split; [by right | by intros [-> | ?]].
Qed.

Lemma has_node_add_edge (u v t m : string) (G : Graph) :
  has_node (add_edge u v t G) m = true ↔ m = u ∨ m = v ∨ has_node G m = true.
Proof.
  change (has_node (add_edge u v t G) m) with (has_node (ensure_node v (ensure_node u G)) m).
  rewrite !has_node_ensure_node. tauto.
Qed.

Lemma has_node_add_company_nodes (rows : list Company) (G : Graph) (m : string) :
  has_node (add_company_nodes rows G) m = true
  ↔ m ∈ company_id <$> rows ∨ has_node G m = true.
Proof.
  unfold add_company_nodes. revert G.
  induction rows as [| row rows IH]; intros G; simpl.
  - rewrite elem_of_nil. tauto.
  - rewrite IH, has_node_add_node, elem_of_cons. tauto.
Qed.

Lemma has_node_add_director_nodes (rows : list Director) (G : Graph) (m : string) :
  has_node (add_director_nodes rows G) m = true
  ↔ m ∈ director_id <$> rows ∨ has_node G m = true.
Proof.
  unfold add_director_nodes. revert G.
  induction rows as [| row rows IH]; intros G; simpl.
  - rewrite elem_of_nil. tauto.
  - rewrite IH, has_node_add_node, elem_of_cons. tauto.
Qed.

Lemma has_node_add_tender_nodes (rows : list Tender) (G : Graph) (m : string) :
  has_node (add_tender_nodes rows G) m = true
  ↔ m ∈ tender_id <$> rows ∨ has_node G m = true.
Proof.
  unfold add_tender_nodes. revert G.
  induction rows as [| row rows IH]; intros G; simpl.
  - rewrite elem_of_nil. tauto.
  - rewrite IH, has_node_add_node, elem_of_cons. tauto.
Qed.

Lemma has_node_add_edges (rows : list Relationship) (G : Graph) (m : string) :
  has_node (add_edges rows G) m = true
  ↔ m ∈ source_id <$> rows ∨ m ∈ target_id <$> rows ∨ has_node G m = true.
Proof.
  unfold add_edges. revert G.
  induction rows as [| row rows IH]; intros G; simpl.
  - rewrite !elem_of_nil. tauto.
  - rewrite IH, has_node_add_edge, !elem_of_cons. tauto.
Qed.

(** The node set of the built graph: the ids of the three tables and every
    endpoint of a relationship row. *)
Lemma has_node_build (cs : list Company) (ds : list Director) (ts : list Tender)
    (rs : list Relationship) (m : string) :
  has_node (_build_networkx_graph cs ds ts rs) m = true
  ↔ m ∈ company_id <$> cs ∨ m ∈ director_id <$> ds ∨ m ∈ tender_id <$> ts
    ∨ m ∈ source_id <$> rs ∨ m ∈ target_id <$> rs.
Proof.
  unfold _build_networkx_graph.
  rewrite has_node_add_edges, has_node_add_tender_nodes,
    has_node_add_director_nodes, has_node_add_company_nodes.
  unfold has_node at 1. simpl. rewrite lookup_empty. intuition discriminate.
Qed.

(** ** Confidence *)

Lemma confidence_present (self : RiskScoringEngine) (entity_id : string) :
  has_node (graph self) entity_id = true →
  _calculate_confidence self entity_id
  = Qmin (0.5 + Qnat (degree (graph self) entity_id) / 20.0) 1.0.
Proof.
  intros H. unfold _calculate_confidence. by rewrite H.
Qed.

Lemma confidence_absent (self : RiskScoringEngine) (entity_id : string) :
  has_node (graph self) entity_id = false →
  _calculate_confidence self entity_id = 0.3%Q.
Proof.
  intros H. unfold _calculate_confidence. by rewrite H.
Qed.

Lemma half_le_confidence_base (n : nat) : (0.5 <= 0.5 + Qnat n / 20.0)%Q.
Proof.
  rewrite <- (Qplus_0_r 0.5) at 1. apply Qplus_le_r.
  apply Qle_shift_div_l; [reflexivity |]. rewrite Qmult_0_l. apply Qnat_nonneg.
Qed.

Lemma confidence_present_range (self : RiskScoringEngine) (entity_id : string) :
  has_node (graph self) entity_id = true →
  (0.5 <= _calculate_confidence self entity_id <= 1.0)%Q.
Proof.
  intros H. rewrite confidence_present by done. split.
  - apply Q.min_glb; [apply half_le_confidence_base | discriminate].
  - apply Q.le_min_r.
Qed.

(** C7.  For an id that is not a node of the graph the confidence is exactly
    0.3; for a node it is [clamp(0.5 + degree/20, 0, 1)]; in every case, so
    for every company, it lies in the interval from 0.3 to 1.0. *)
Theorem calculate_confidence_spec (self : RiskScoringEngine) (entity_id : string) :
  (has_node (graph self) entity_id = false →
     _calculate_confidence self entity_id = 0.3%Q) ∧
  (has_node (graph self) entity_id = true →
     _calculate_confidence self entity_id
     == clamp (0.5 + Qnat (degree (graph self) entity_id) / 20.0) 0 1.0) ∧
  (0.3 <= _calculate_confidence self entity_id <= 1.0)%Q.
Proof.
  split; [apply confidence_absent |]. split.
  - intros H. rewrite confidence_present by done.
    rewrite clamp_above; [reflexivity | | discriminate].
    eapply Qle_trans; [| apply half_le_confidence_base]. discriminate.
  - destruct (has_node (graph self) entity_id) eqn:H.
    + destruct (confidence_present_range self entity_id H) as [Hlo Hhi].
      split; [| exact Hhi]. eapply Qle_trans; [| exact Hlo]. discriminate.
    + rewrite confidence_absent by done. split; discriminate.
Qed.

Lemma calculate_confidence_spec_witness :
  ∃ self, __init__ shared_director_data = Some self ∧
    _calculate_confidence self "COMP_Z" = 0.3%Q ∧
    _calculate_confidence self "COMP_A" == 0.55 ∧
    (0.3 <= _calculate_confidence self "DIR_X" <= 1.0)%Q.
Proof.
  eexists. split; [reflexivity |].
  match goal with |- ?c ?s _ = _ ∧ _ =>
    pose proof (calculate_confidence_spec s "COMP_Z") as (HZ & _ & _);
    pose proof (calculate_confidence_spec s "COMP_A") as (_ & HA & _);
    pose proof (calculate_confidence_spec s "DIR_X") as (_ & _ & HX)
  end.
  split; [apply HZ; vm_compute; reflexivity |].
  split; [| exact HX].
  rewrite HA by (vm_compute; reflexivity). vm_compute. reflexivity.
Defined.

(** ** The graph: edges *)

Lemma graph_wf_empty : graph_wf nx_Graph.
Proof. intros n. simpl. by rewrite !lookup_empty. Qed.

Lemma graph_wf_add_node (n : string) (attr : gmap string AttrVal) (G : Graph) :
  graph_wf G → graph_wf (add_node n attr G).
Proof.
  intros Hwf m. unfold add_node.
  destruct (_node G !! n) as [old|] eqn:En; simpl.
  - rewrite lookup_insert_is_Some, <- (Hwf m).
    split; [intros [<- | [_ ?]]; [by rewrite En | done] |].
    intros Hm. destruct (decide (n = m)); [by left | by right].
  - rewrite !lookup_insert_is_Some, (Hwf m). tauto.
Qed.

Lemma graph_wf_ensure_node (n : string) (G : Graph) :
  graph_wf G → graph_wf (ensure_node n G).
Proof.
  intros Hwf m. unfold ensure_node.
  destruct (_node G !! n) as [old|] eqn:En; simpl; [apply Hwf |].
  rewrite !lookup_insert_is_Some, (Hwf m). tauto.
Qed.

Lemma graph_wf_add_edge (u v t : string) (G : Graph) :
  graph_wf G → graph_wf (add_edge u v t G).
Proof.
  intros Hwf m. unfold add_edge. simpl.
  rewrite !lookup_alter_is_Some.
  by apply graph_wf_ensure_node, graph_wf_ensure_node.
Qed.

Lemma adj_rel_alter_new (A : gmap string (gmap string string)) (i k t : string) :
  is_Some (A !! i) → adj_rel (alter (insert k t) i A) i k.
Proof.
  intros [nbrs Hi]. exists (<[k := t]> nbrs). split.
  - by rewrite lookup_alter_eq, Hi.
  - rewrite lookup_insert_eq. by eexists.
Qed.

Lemma adj_rel_alter_mono (A : gmap string (gmap string string)) (i k t x y : string) :
  adj_rel A x y → adj_rel (alter (insert k t) i A) x y.
Proof.
  intros (nbrs & Hx & Hy). destruct (decide (i = x)) as [-> | Hne].
  - exists (<[k := t]> nbrs). split; [by rewrite lookup_alter_eq, Hx |].
    rewrite lookup_insert_is_Some. destruct (decide (k = y)); [by left | by right].
  - exists nbrs. split; [by rewrite lookup_alter_ne | done].
Qed.

Lemma adjacent_add_node (n : string) (attr : gmap string AttrVal) (G : Graph)
    (x y : string) :
  graph_wf G → adjacent G x y → adjacent (add_node n attr G) x y.
Proof.
  intros Hwf (nbrs & Hx & Hy). exists nbrs. split; [| done].
  unfold add_node. destruct (_node G !! n) as [old|] eqn:En; simpl; [done |].
  rewrite lookup_insert_ne; [done |]. intros ->.
  assert (Hs : is_Some (_node G !! x)) by (apply Hwf; by eexists).
  rewrite En in Hs. by destruct Hs.
Qed.

Lemma adjacent_ensure_node (n : string) (G : Graph) (x y : string) :
  graph_wf G → adjacent G x y → adjacent (ensure_node n G) x y.
Proof.
  intros Hwf (nbrs & Hx & Hy). exists nbrs. split; [| done].
  unfold ensure_node. destruct (_node G !! n) as [old|] eqn:En; simpl; [done |].
  rewrite lookup_insert_ne; [done |]. intros ->.
  assert (Hs : is_Some (_node G !! x)) by (apply Hwf; by eexists).
  rewrite En in Hs. by destruct Hs.
Qed.

Lemma adjacent_add_edge_old (u v t : string) (G : Graph) (x y : string) :
  graph_wf G → adjacent G x y → adjacent (add_edge u v t G) x y.
Proof.
  intros Hwf Hxy. unfold adjacent, add_edge. simpl.
  do 2 apply adj_rel_alter_mono.
  apply adjacent_ensure_node; [by apply graph_wf_ensure_node |].
  by apply adjacent_ensure_node.
Qed.

Lemma adjacent_add_edge_new (u v t : string) (G : Graph) :
  graph_wf G →
  adjacent (add_edge u v t G) u v ∧ adjacent (add_edge u v t G) v u.
Proof.
  intros Hwf. unfold adjacent, add_edge. simpl.
  set (G2 := ensure_node v (ensure_node u G)).
  assert (Hwf2 : graph_wf G2) by (by do 2 apply graph_wf_ensure_node).
  assert (Hu : is_Some (_adj G2 !! u)).
  { apply Hwf2, has_node_is_Some, has_node_ensure_node. right.
    apply has_node_ensure_node. by left. }
  assert (Hv : is_Some (_adj G2 !! v)).
  { apply Hwf2, has_node_is_Some, has_node_ensure_node. by left. }
  split.
  - apply adj_rel_alter_mono. by apply adj_rel_alter_new.
  - apply adj_rel_alter_new. by rewrite lookup_alter_is_Some.
Qed.

Lemma add_edges_edges (rows : list Relationship) (G : Graph) :
  graph_wf G →
  graph_wf (add_edges rows G) ∧
  (∀ x y, adjacent G x y → adjacent (add_edges rows G) x y) ∧
  (∀ r, r ∈ rows →
     adjacent (add_edges rows G) (source_id r) (target_id r) ∧
     adjacent (add_edges rows G) (target_id r) (source_id r)).
Proof.
  unfold add_edges. revert G.
  induction rows as [| row rows IH]; intros G Hwf; simpl.
  - split; [done |]. split; [done |]. intros r Hr. by apply elem_of_nil in Hr.
  - destruct (IH (add_edge (source_id row) (target_id row) (relationship_type row) G))
      as (IHwf & IHold & IHnew); [by apply graph_wf_add_edge |].
    split; [done |]. split.
    + intros x y Hxy. by apply IHold, adjacent_add_edge_old.
    + intros r [-> | Hr]%elem_of_cons; [| by apply IHnew].
      destruct (adjacent_add_edge_new (source_id row) (target_id row)
                  (relationship_type row) G Hwf) as [H1 H2].
      split; by apply IHold.
Qed.

Lemma graph_wf_add_company_nodes (rows : list Company) (G : Graph) :
  graph_wf G → graph_wf (add_company_nodes rows G).
Proof.
  unfold add_company_nodes. revert G.
  induction rows as [| row rows IH]; intros G Hwf; simpl; [done |].
  by apply IH, graph_wf_add_node.
Qed.

Lemma graph_wf_add_director_nodes (rows : list Director) (G : Graph) :
  graph_wf G → graph_wf (add_director_nodes rows G).
Proof.
  unfold add_director_nodes. revert G.
  induction rows as [| row rows IH]; intros G Hwf; simpl; [done |].
  by apply IH, graph_wf_add_node.
Qed.

Lemma graph_wf_add_tender_nodes (rows : list Tender) (G : Graph) :
  graph_wf G → graph_wf (add_tender_nodes rows G).
Proof.
  unfold add_tender_nodes. revert G.
  induction rows as [| row rows IH]; intros G Hwf; simpl; [done |].
  by apply IH, graph_wf_add_node.
Qed.

(** ** Graph construction and dangling rows *)

(** C3, as the code has it.  Construction never fails: it always yields an
    engine.  Every relationship row becomes an edge of the graph, in both
    directions, and both of its endpoints are nodes of the built graph,
    whether or not they occur in the company, director or tender table: an
    endpoint that is in no table is added as a node by the edge itself. *)
Theorem build_graph_tolerates_dangling (data : Data) :
  ∃ self, __init__ data = Some self ∧
    ∀ r, r ∈ data_relationships data →
      has_node (graph self) (source_id r) = true ∧
      has_node (graph self) (target_id r) = true ∧
      adjacent (graph self) (source_id r) (target_id r) ∧
      adjacent (graph self) (target_id r) (source_id r).
Proof.
  eexists. split; [reflexivity |]. simpl. intros r Hr.
  split; [| split].
  - apply has_node_build. do 3 right. left. by apply list_elem_of_fmap_2.
  - apply has_node_build. do 4 right. by apply list_elem_of_fmap_2.
  - unfold _build_networkx_graph.
    eapply add_edges_edges; [| exact Hr].
    apply graph_wf_add_tender_nodes, graph_wf_add_director_nodes,
      graph_wf_add_company_nodes, graph_wf_empty.
Qed.

Lemma build_graph_tolerates_dangling_witness :
  ∃ self, __init__ issued_by_data = Some self ∧
    has_node (graph self) "DEPT_01" = true ∧
    adjacent (graph self) "TEND_0001" "DEPT_01".
Proof.
  destruct (build_graph_tolerates_dangling issued_by_data) as (self & Hinit & Hrows).
  exists self. split; [exact Hinit |].
  destruct (Hrows (mkRel "TEND_0001" "DEPT_01" "ISSUED_BY")) as (_ & Ht & Ha & _).
  - vm_compute. apply list_elem_of_here.
  - split; [exact Ht | exact Ha].
Defined.

(** C3, as the specification states it, fails: the row from TEND_0001 to
    DEPT_01 names a department, which is in no node table, and the engine is
    built all the same, with DEPT_01 as a node of degree one. *)
Lemma dangling_edge_is_tolerated :
  (∃ r, r ∈ data_relationships issued_by_data ∧ dangling issued_by_data r) ∧
  ∃ self, __init__ issued_by_data = Some self ∧
    __init__ issued_by_data ≠ None ∧
    has_node (graph self) "DEPT_01" = true ∧
    degree (graph self) "DEPT_01" = 1 ∧
    _calculate_confidence self "DEPT_01" == 0.55.
Proof.
  split.
  - exists (mkRel "TEND_0001" "DEPT_01" "ISSUED_BY"). split.
    + by apply list_elem_of_singleton.
    + right. apply (bool_decide_unpack _). by vm_compute.
  - eexists. split; [reflexivity |]. split; [discriminate |].
    split; [vm_compute; reflexivity |]. split; vm_compute; reflexivity.
Qed.

(** C10.  Every row of the company, director and tender tables is a node of
    the built graph.  Hence the confidence of any id is either exactly 0.3
    (the id is not a node) or between 0.5 and 1.0, never strictly between
    0.3 and 0.5, and it is at least 0.5 for every company of the table. *)
Theorem table_rows_are_nodes (data : Data) (self : RiskScoringEngine) :
  __init__ data = Some self →
  (∀ c, c ∈ data_companies data → has_node (graph self) (company_id c) = true) ∧
  (∀ d, d ∈ data_directors data → has_node (graph self) (director_id d) = true) ∧
  (∀ t, t ∈ data_tenders data → has_node (graph self) (tender_id t) = true) ∧
  (∀ entity_id,
     (has_node (graph self) entity_id = false ∧
      _calculate_confidence self entity_id = 0.3%Q) ∨
     (has_node (graph self) entity_id = true ∧
      (0.5 <= _calculate_confidence self entity_id <= 1.0)%Q)) ∧
  (∀ entity_id,
     ¬ ((0.3 < _calculate_confidence self entity_id)%Q ∧
        (_calculate_confidence self entity_id < 0.5)%Q)) ∧
  (∀ c, c ∈ companies self →
     (0.5 <= _calculate_confidence self (company_id c) <= 1.0)%Q).
Proof.
  intros Hinit.
  assert (Hg : graph self = _build_networkx_graph (data_companies data)
                 (data_directors data) (data_tenders data) (data_relationships data))
    by (injection Hinit as <-; reflexivity).
  assert (Hcs : companies self = data_companies data)
    by (injection Hinit as <-; reflexivity).
  assert (Hc : ∀ c, c ∈ data_companies data →
                    has_node (graph self) (company_id c) = true).
  { intros c Hc. rewrite Hg. apply has_node_build. left. by apply list_elem_of_fmap_2. }
  split; [exact Hc |].
  split.
  { intros d Hd. rewrite Hg. apply has_node_build. right. left.
    by apply list_elem_of_fmap_2. }
  split.
  { intros t Ht. rewrite Hg. apply has_node_build. do 2 right. left.
    by apply list_elem_of_fmap_2. }
  split; [| split].
  - intros entity_id. destruct (has_node (graph self) entity_id) eqn:Hn.
    + right. split; [done |]. by apply confidence_present_range.
    + left. split; [done |]. by apply confidence_absent.
  - intros entity_id [Hlo Hhi].
    destruct (has_node (graph self) entity_id) eqn:Hn.
    + destruct (confidence_present_range self entity_id Hn) as [H5 _].
      exact (Qlt_irrefl _ (Qle_lt_trans _ _ _ H5 Hhi)).
    + rewrite (confidence_absent self entity_id Hn) in Hlo.
      exact (Qlt_irrefl _ Hlo).
  - intros c Hcin. apply confidence_present_range, Hc. by rewrite <- Hcs.
Qed.

Lemma table_rows_are_nodes_witness :
  ∃ self, __init__ shared_director_data = Some self ∧
    has_node (graph self) "COMP_B" = true ∧
    has_node (graph self) "DIR_X" = true ∧
    (0.5 <= _calculate_confidence self "COMP_B" <= 1.0)%Q.
Proof.
  eexists. split; [reflexivity |].
  match goal with |- has_node (graph ?s) _ = _ ∧ _ =>
    destruct (table_rows_are_nodes shared_director_data s eq_refl)
      as (Hc & Hd & _ & _ & _ & Hconf)
  end.
  split; [| split].
  - apply (Hc (mkCompany "COMP_B" "2 Oak St" 2002 0)). vm_compute.
    apply list_elem_of_further, list_elem_of_here.
  - apply (Hd {| director_id := "DIR_X"; director_name := "X";
                 age := 50; director_fraud_label := 0 |}).
    vm_compute. apply list_elem_of_here.
  - apply (Hconf (mkCompany "COMP_B" "2 Oak St" 2002 0)). vm_compute.
    apply list_elem_of_further, list_elem_of_here.
Defined.

(** ** Shared directors *)

Lemma elem_of_shared_companies_from (self : RiskScoringEngine) (cid : string)
    (director_ids : list string) (acc : gset string) (c : string) :
  c ∈ fold_left (λ shared director,
                   shared ∪ list_to_set (other_companies self cid director))
                director_ids acc
  ↔ c ∈ acc ∨ ∃ d, d ∈ director_ids ∧ c ∈ other_companies self cid d.
Proof.
  revert acc. induction director_ids as [| d ds IH]; intros acc; simpl.
  - split; [by left |]. intros [? | (d & Hd & _)]; [done |].
    by apply elem_of_nil in Hd.
  - rewrite IH, elem_of_union, elem_of_list_to_set. split.
    + intros [[? | ?] | (d' & Hd' & ?)].
      * by left.
      * right. exists d. split; [apply list_elem_of_here | done].
      * right. exists d'. split; [by apply list_elem_of_further | done].
    + intros [? | (d' & [-> | Hd']%elem_of_cons & ?)].
      * left. by left.
      * left. by right.
      * right. by exists d'.
Qed.

Lemma elem_of_other_companies (self : RiskScoringEngine) (cid d c : string) :
  c ∈ other_companies self cid d ↔ c ≠ cid ∧ is_director_of self d c.
Proof.
  unfold other_companies, is_director_of. rewrite list_elem_of_fmap. split.
  - intros (r & -> & Hr). apply list_elem_of_filter in Hr as [(Hs & Hty & Hne) Hin].
    split; [done |]. by exists r.
  - intros (Hne & r & Hin & Hs & Ht & Hty). exists r. split; [done |].
    apply list_elem_of_filter. split; [| done]. by rewrite Ht.
Qed.

Lemma elem_of_director_ids (self : RiskScoringEngine) (cid d : string) :
  d ∈ source_id <$> filter (λ r, target_id r = cid ∧ relationship_type r = "DIRECTOR_OF")
                           (relationships self)
  ↔ is_director_of self d cid.
Proof.
  unfold is_director_of. rewrite list_elem_of_fmap. split.
  - intros (r & -> & Hr). apply list_elem_of_filter in Hr as [(Ht & Hty) Hin].
    by exists r.
  - intros (r & Hin & Hs & Ht & Hty). exists r. split; [done |].
    apply list_elem_of_filter. by split.
Qed.

(** The set filled by the loop is the set of the other companies that share
    a director with [cid]. *)
Lemma elem_of_shared_companies (self : RiskScoringEngine) (cid c : string) :
  c ∈ shared_companies self cid
        (source_id <$> filter (λ r, target_id r = cid
                                    ∧ relationship_type r = "DIRECTOR_OF")
                              (relationships self))
  ↔ c ≠ cid ∧ ∃ d, is_director_of self d cid ∧ is_director_of self d c.
Proof.
  unfold shared_companies. rewrite elem_of_shared_companies_from. split.
  - intros [H | (d & Hd & Hc)]; [by apply not_elem_of_empty in H |].
    apply elem_of_director_ids in Hd. apply elem_of_other_companies in Hc as [Hne Hc].
    split; [done |]. by exists d.
  - intros (Hne & d & Hd & Hc). right. exists d. split.
    + by apply elem_of_director_ids.
    + by apply elem_of_other_companies.
Qed.

(** C6.  The shared-directors factor is [min(n/10, 1.0)], [n] being the
    number of distinct other companies linked by DIRECTOR_OF to a director
    of the company; it is exactly 0.0 for a company without DIRECTOR_OF
    rows; and when COMP_A, COMP_B and COMP_C share the only director DIR_X,
    the set found for COMP_A is COMP_B and COMP_C, and the factor is 0.2. *)
Theorem check_shared_directors_spec :
  (∀ self cid, ∃ others : gset string,
     (∀ c, c ∈ others ↔
           c ≠ cid ∧ ∃ d, is_director_of self d cid ∧ is_director_of self d c) ∧
     _check_shared_directors self cid == Qmin (Qnat (size others) / 10.0) 1.0) ∧
  (∀ self cid, (∀ d, ¬ is_director_of self d cid) →
     _check_shared_directors self cid = 0%Q) ∧
  (∀ self, __init__ shared_director_data = Some self →
     shared_companies self "COMP_A" ["DIR_X"] = {["COMP_B"; "COMP_C"]} ∧
     _check_shared_directors self "COMP_A" == 0.2).
Proof.
  split; [| split].
  - intros self cid.
    exists (shared_companies self cid
              (source_id <$> filter (λ r, target_id r = cid
                                          ∧ relationship_type r = "DIRECTOR_OF")
                                    (relationships self))).
    split; [apply elem_of_shared_companies |].
    unfold _check_shared_directors.
    destruct (length _ =? 0)%nat eqn:Hlen; [| reflexivity].
    apply Nat.eqb_eq, nil_length_inv in Hlen. rewrite Hlen. reflexivity.
  - intros self cid Hnone. unfold _check_shared_directors.
    destruct (filter _ (relationships self)) as [| r rs] eqn:Hrels; [reflexivity |].
    exfalso. apply (Hnone (source_id r)), elem_of_director_ids.
    rewrite Hrels. apply list_elem_of_fmap_2, list_elem_of_here.
  - intros self Hinit. injection Hinit as <-. split.
    + by vm_compute.
    + by vm_compute.
Qed.

Lemma check_shared_directors_spec_witness :
  ∃ self, __init__ shared_director_data = Some self ∧
    _check_shared_directors self "DIR_X" = 0%Q ∧
    _check_shared_directors self "COMP_A" == 0.2.
Proof.
  eexists. split; [reflexivity |].
  destruct check_shared_directors_spec as (_ & Hzero & Hscen).
  split.
  - apply Hzero. intros d (r & Hin & _ & Ht & _).
    vm_compute in Hin.
    repeat (apply elem_of_cons in Hin as [-> | Hin]; [discriminate Ht |]).
    by apply elem_of_nil in Hin.
  - apply Hscen. reflexivity.
Defined.

(** ** Fraud clusters *)

Lemma fraud_label_of_Some (self : RiskScoringEngine) (m : string) (label : Z) :
  fraud_label_of self m = Some label →
  ∃ row, row ∈ companies self ∧ company_id row = m ∧ company_fraud_label row = label.
Proof.
  unfold fraud_label_of, iloc0. intros H.
  destruct (head _) as [row|] eqn:Hhead; [| done].
  injection H as <-. apply head_Some_elem_of, list_elem_of_filter in Hhead as [Hid Hin].
  by exists row.
Qed.

Lemma fraud_count_Some (self : RiskScoringEngine) (ms : list string) (k : nat) :
  fraud_count self ms = Some k →
  k = length (fraud_members self ms) ∧
  ∀ m, m ∈ ms → is_Some (fraud_label_of self m).
Proof.
  unfold fraud_members. revert k. induction ms as [| m ms IH]; intros k; simpl.
  - intros [= <-]. split; [done |]. intros m Hm. by apply elem_of_nil in Hm.
  - destruct (fraud_label_of self m) as [label|] eqn:Hl; simpl; [| done].
    destruct (fraud_count self ms) as [k'|] eqn:Hk; simpl; [| done].
    intros [= <-]. destruct (IH k' eq_refl) as [-> Hall]. split.
    + rewrite filter_cons, Hl. destruct (decide (label = 1%Z)) as [-> | Hne].
      * by rewrite decide_True.
      * rewrite decide_False; [done |]. by intros [= ?].
    + intros m' [-> | Hm']%elem_of_cons; [by rewrite Hl | by apply Hall].
Qed.

Lemma filter_fraud_clusters_sound (self : RiskScoringEngine)
    (communities : list (Z * list string)) (clusters : list (list string)) :
  filter_fraud_clusters self communities = Some clusters →
  ∀ cluster, cluster ∈ clusters →
    ∃ comm_id members, (comm_id, members) ∈ communities ∧
      cluster = filter (λ m, String.prefix "COMP_" m = true) members ∧
      (3 ≤ length cluster)%nat ∧
      ∃ k, fraud_count self cluster = Some k ∧
           (0.5 < Qnat k / Qnat (length cluster))%Q.
Proof.
  revert clusters. induction communities as [| [comm_id members] rest IH];
    intros clusters; simpl.
  - intros [= <-] cluster Hc. by apply elem_of_nil in Hc.
  - set (company_members := filter (λ m, String.prefix "COMP_" m = true) members).
    assert (Hrest : ∀ clusters', filter_fraud_clusters self rest = Some clusters' →
      ∀ cluster, cluster ∈ clusters' →
        ∃ comm_id' members', (comm_id', members') ∈ (comm_id, members) :: rest ∧
          cluster = filter (λ m, String.prefix "COMP_" m = true) members' ∧
          (3 ≤ length cluster)%nat ∧
          ∃ k, fraud_count self cluster = Some k ∧
               (0.5 < Qnat k / Qnat (length cluster))%Q).
    { intros clusters' H' cluster Hc.
      destruct (IH clusters' H' cluster Hc) as (c' & ms' & Hin & Hrest).
      exists c', ms'. split; [by apply list_elem_of_further | done]. }
    destruct (length company_members <? 3)%nat eqn:Hlen; [apply Hrest |].
    destruct (fraud_count self company_members) as [k|] eqn:Hk; simpl; [| done].
    destruct (filter_fraud_clusters self rest) as [clusters'|] eqn:Hr; simpl; [| done].
    destruct (Qgt_bool _ _) eqn:Hconc; intros [= <-]; [| by apply Hrest].
    intros cluster [-> | Hc]%elem_of_cons; [| by apply (Hrest clusters')].
    exists comm_id, members. split; [apply list_elem_of_here |].
    split; [done |]. apply Nat.ltb_ge in Hlen. split; [done |].
    exists k. split; [done |]. by apply Qgt_bool_iff.
Qed.

Lemma fraud_count_is_Some (self : RiskScoringEngine) (ms : list string) :
  (∀ m, m ∈ ms → m ∈ company_id <$> companies self) →
  is_Some (fraud_count self ms).
Proof.
  induction ms as [| m ms IH]; intros Hall; simpl; [by eexists |].
  pose proof (Hall m (list_elem_of_here _ _)) as Hm.
  apply list_elem_of_fmap in Hm as (row & -> & Hin).
  unfold fraud_label_of.
  destruct (iloc0_filter_is_Some (λ c, company_id c = company_id row)
              (companies self) row Hin eq_refl) as [company ->].
  simpl. destruct IH as [k ->]; [| by eexists].
  intros m' Hm'. by apply Hall, list_elem_of_further.
Qed.

(** The filter raises on no community when every id with the company
    prefix is a row of the companies table. *)
Lemma filter_fraud_clusters_is_Some (self : RiskScoringEngine)
    (communities : list (Z * list string)) :
  (∀ c ms m, (c, ms) ∈ communities → m ∈ ms → String.prefix "COMP_" m = true →
             m ∈ company_id <$> companies self) →
  is_Some (filter_fraud_clusters self communities).
Proof.
  induction communities as [| [comm_id members] rest IH]; intros Hall; simpl;
    [by eexists |].
  assert (Hrest : is_Some (filter_fraud_clusters self rest)).
  { apply IH. intros c ms m Hin. apply (Hall c ms m). by apply list_elem_of_further. }
  destruct (length _ <? 3)%nat; [done |].
  destruct (fraud_count_is_Some self
              (filter (λ m, String.prefix "COMP_" m = true) members)) as [k ->].
  { intros m [Hp Hm]%list_elem_of_filter.
    by apply (Hall comm_id members m (list_elem_of_here _ _)). }
  destruct Hrest as [clusters ->]. simpl. by eexists.
Qed.

Lemma elem_of_communities_append (comm_id : Z) (node : string)
    (communities : list (Z * list string)) (c : Z) (ms : list string) :
  (c, ms) ∈ communities_append comm_id node communities →
  (c, ms) ∈ communities ∨
  ∃ ms0, ms = ms0 ++ [node] ∧ (ms0 = [] ∨ (c, ms0) ∈ communities).
Proof.
  induction communities as [| [c' ms'] rest IH]; simpl.
  - intros [= -> ->]%list_elem_of_singleton. right. exists []. split; [done | by left].
  - destruct (decide (c' = comm_id)) as [-> | Hne].
    + intros [[= -> ->] | Hin]%elem_of_cons.
      * right. exists ms'. split; [done |]. right. apply list_elem_of_here.
      * left. by apply list_elem_of_further.
    + intros [[= -> ->] | Hin]%elem_of_cons; [left; apply list_elem_of_here |].
      destruct (IH Hin) as [Hold | (ms0 & -> & [-> | Hold])].
      * left. by apply list_elem_of_further.
      * right. exists []. split; [done | by left].
      * right. exists ms0. split; [done |]. right. by apply list_elem_of_further.
Qed.

(** The member lists built from a dictionary (distinct keys) have no
    repetition and hold only keys of the dictionary. *)
Lemma group_by_community_from (partition : list (string * Z)) (seen : list string)
    (communities : list (Z * list string)) :
  NoDup (seen ++ partition.*1) →
  (∀ c ms, (c, ms) ∈ communities → NoDup ms ∧ ∀ m, m ∈ ms → m ∈ seen) →
  ∀ c ms,
    (c, ms) ∈ fold_left (λ communities '(node, comm_id),
                           communities_append comm_id node communities)
                        partition communities →
    NoDup ms ∧ ∀ m, m ∈ ms → m ∈ seen ++ partition.*1.
Proof.
  revert seen communities.
  induction partition as [| [node comm_id] partition IH];
    intros seen communities Hnd Hinv c ms; simpl.
  - rewrite app_nil_r. apply Hinv.
  - intros Hin.
    assert (Hnd' : NoDup ((seen ++ [node]) ++ partition.*1))
      by (by rewrite <- app_assoc).
    assert (Hfresh : node ∉ seen).
    { apply NoDup_app in Hnd as (_ & Hdisj & _). intros Hs.
      apply (Hdisj node Hs), list_elem_of_here. }
    destruct (IH (seen ++ [node]) (communities_append comm_id node communities)
                Hnd') with (c := c) (ms := ms) as [Hms Hsub]; [| done |].
    + intros c' ms' Happ.
      destruct (elem_of_communities_append _ _ _ _ _ Happ)
        as [Hold | (ms0 & -> & [-> | Hold])].
      * destruct (Hinv c' ms' Hold) as [? Hs]. split; [done |].
        intros m Hm. apply elem_of_app. left. by apply Hs.
      * split; [apply NoDup_singleton |].
        intros m Hm. apply elem_of_app. by right.
      * destruct (Hinv c' ms0 Hold) as [Hnd0 Hs]. split.
        -- apply NoDup_app. split; [done |]. split; [| apply NoDup_singleton].
           intros m Hm ->%list_elem_of_singleton. by apply Hfresh, Hs.
        -- intros m [Hm | Hm]%elem_of_app; apply elem_of_app; [left | by right].
           by apply Hs.
    + split; [done |]. intros m Hm. specialize (Hsub m Hm).
      by rewrite <- app_assoc in Hsub.
Qed.

Lemma group_by_community_NoDup (partition : list (string * Z)) (c : Z)
    (ms : list string) :
  NoDup partition.*1 → (c, ms) ∈ group_by_community partition →
  NoDup ms ∧ ∀ m, m ∈ ms → m ∈ partition.*1.
Proof.
  intros Hnd Hin.
  apply (group_by_community_from partition [] [] Hnd) with (c := c); [| done].
  intros c' ms' H. by apply elem_of_nil in H.
Qed.

(** C5.  Every cluster returned by [detect_fraud_clusters] holds only ids
    with the company prefix COMP_, each of them a row of the companies
    table; it has at least three members (distinct ones, the partition
    being a dictionary); and the number of its members with fraud label 1
    divided by the number of its members is strictly greater than 0.5. *)
Theorem detect_fraud_clusters_spec (best_partition : Graph → list (string * Z))
    (self : RiskScoringEngine) (clusters : list (list string)) (cluster : list string) :
  detect_fraud_clusters best_partition self = Some clusters →
  cluster ∈ clusters →
  (∀ m, m ∈ cluster →
     String.prefix "COMP_" m = true ∧ ∃ row, row ∈ companies self ∧ company_id row = m) ∧
  (3 ≤ length cluster)%nat ∧
  (0.5 < Qnat (length (fraud_members self cluster)) / Qnat (length cluster))%Q ∧
  (NoDup (best_partition (graph self)).*1 → NoDup cluster).
Proof.
  unfold detect_fraud_clusters. intros Hdet Hin.
  destruct (filter_fraud_clusters_sound self _ clusters Hdet cluster Hin)
    as (comm_id & members & Hcomm & Hfilter & Hlen & k & Hk & Hconc).
  destruct (fraud_count_Some self cluster k Hk) as [-> Hrows].
  split; [| split; [done | split; [done |]]].
  - intros m Hm. split.
    + rewrite Hfilter in Hm. by apply list_elem_of_filter in Hm as [? _].
    + destruct (Hrows m Hm) as [label Hlabel].
      destruct (fraud_label_of_Some self m label Hlabel) as (row & ? & ? & _).
      by exists row.
  - intros Hnd. rewrite Hfilter. apply NoDup_filter.
    by destruct (group_by_community_NoDup _ comm_id members Hnd Hcomm).
Qed.

Lemma detect_fraud_clusters_spec_witness :
  ∃ self, __init__ cluster_data = Some self ∧
    detect_fraud_clusters cluster_partition self
      = Some [["COMP_1"; "COMP_2"; "COMP_3"; "COMP_4"]] ∧
    (3 ≤ length ["COMP_1"; "COMP_2"; "COMP_3"; "COMP_4"])%nat ∧
    (0.5 < Qnat (length (fraud_members self ["COMP_1"; "COMP_2"; "COMP_3"; "COMP_4"]))
           / Qnat 4)%Q ∧
    NoDup ["COMP_1"; "COMP_2"; "COMP_3"; "COMP_4"].
Proof.
  eexists. split; [reflexivity |]. split; [vm_compute; reflexivity |].
  match goal with |- context [fraud_members ?s _] =>
    destruct (detect_fraud_clusters_spec cluster_partition s
                [["COMP_1"; "COMP_2"; "COMP_3"; "COMP_4"]]
                ["COMP_1"; "COMP_2"; "COMP_3"; "COMP_4"])
      as (_ & Hlen & Hconc & Hnd)
  end.
  - vm_compute. reflexivity.
  - apply list_elem_of_here.
  - split; [exact Hlen |]. split; [exact Hconc |].
    apply Hnd. apply (bool_decide_unpack _). by vm_compute.
Defined.

(** ** Win patterns *)

Lemma filter_none {A} (P : A → Prop) `{∀ x, Decision (P x)} (l : list A) :
  (∀ x, ¬ P x) → filter P l = [].
Proof.
  intros Hno. induction l as [| x l IH]; [done |].
  rewrite filter_cons, decide_False; [exact IH | apply Hno].
Qed.

Lemma check_tender_patterns_no_wins (self : RiskScoringEngine) (cid : string) :
  wins self cid = [] → _check_tender_patterns self cid = 0%Q.
Proof.
  unfold wins, _check_tender_patterns. intros ->. reflexivity.
Qed.

Lemma check_tender_patterns_no_values (self : RiskScoringEngine) (cid : string) :
  won_values self cid = [] → _check_tender_patterns self cid = 0%Q.
Proof.
  intros Hvals. unfold _check_tender_patterns.
  change (filter _ (relationships self)) with (wins self cid).
  change (contract_value <$> filter _ (tenders self)) with (won_values self cid).
  rewrite Hvals. simpl. by destruct (length (wins self cid) =? 0)%nat.
Qed.

Lemma check_tender_patterns_raw (self : RiskScoringEngine) (cid : string) :
  won_values self cid ≠ [] →
  _check_tender_patterns self cid = Qmin (win_pattern_raw self cid) 1.0.
Proof.
  intros Hvals.
  assert (Hwins : wins self cid ≠ []).
  { intros Hw. apply Hvals. unfold won_values. rewrite Hw. simpl.
    rewrite filter_none; [done |]. intros t Ht. by apply elem_of_nil in Ht. }
  unfold _check_tender_patterns.
  change (filter _ (relationships self)) with (wins self cid).
  change (contract_value <$> filter _ (tenders self)) with (won_values self cid).
  assert (Hw0 : (length (wins self cid) =? 0)%nat = false)
    by (by destruct (wins self cid)).
  assert (Hv0 : (length (won_values self cid) =? 0)%nat = false)
    by (by destruct (won_values self cid)).
  rewrite Hw0, Hv0. reflexivity.
Qed.

Lemma check_tender_patterns_le_1 (self : RiskScoringEngine) (cid : string) :
  (_check_tender_patterns self cid <= 1)%Q.
Proof.
  unfold _check_tender_patterns.
  destruct (length _ =? 0)%nat; [discriminate |].
  destruct (length _ =? 0)%nat; [discriminate |].
  eapply Qle_trans; [apply Q.le_min_r | discriminate].
Qed.

Lemma value_ratio_spec_nonneg_mean (self : RiskScoringEngine) (cid : string) :
  (0 <= overall_mean self)%Q → value_ratio_spec self cid = value_ratio self cid.
Proof.
  intros Hm. unfold value_ratio_spec, value_ratio.
  destruct (Qeq_bool (overall_mean self) 0) eqn:Heq.
  - apply Qeq_bool_iff in Heq.
    rewrite (proj2 (Qgt_bool_false_iff _ _)); [done |]. by rewrite Heq.
  - rewrite (proj2 (Qgt_bool_iff _ _)); [done |].
    apply Qle_lteq in Hm as [Hlt | Heq']; [done |].
    symmetry in Heq'. apply Qeq_bool_iff in Heq'. congruence.
Qed.

(** C2, as the code has it.  Without WON rows the factor is exactly 0.0,
    and so it is when no won tender is a row of the tenders table.
    When a won tender is a row of the tenders table, the factor is
    [min((value_ratio - 1.0) * 0.5 + win_frequency * 2.0, 1.0)]: capped at
    1.0 and not bounded below, with the value ratio defaulting to 1.0 when
    the overall mean is not positive.  It never exceeds 1, and it is the
    clamped value of the specification whenever the expression is not
    negative and the overall mean is not negative. *)
Theorem check_tender_patterns_capped (self : RiskScoringEngine) (cid : string) :
  (wins self cid = [] → _check_tender_patterns self cid = 0%Q) ∧
  (won_values self cid = [] → _check_tender_patterns self cid = 0%Q) ∧
  (won_values self cid ≠ [] →
     _check_tender_patterns self cid = Qmin (win_pattern_raw self cid) 1.0) ∧
  (_check_tender_patterns self cid <= 1)%Q ∧
  (won_values self cid ≠ [] → (0 <= overall_mean self)%Q →
     (0 <= win_pattern_raw self cid)%Q →
     _check_tender_patterns self cid == win_pattern_spec self cid).
Proof.
  split; [apply check_tender_patterns_no_wins |].
  split; [apply check_tender_patterns_no_values |].
  split; [apply check_tender_patterns_raw |].
  split; [apply check_tender_patterns_le_1 |].
  intros Hvals Hmean Hraw. rewrite check_tender_patterns_raw by done.
  unfold win_pattern_spec.
  assert (Hw0 : (length (wins self cid) =? 0)%nat = false).
  { destruct (wins self cid) eqn:Hw; [| done]. exfalso. apply Hvals.
    unfold won_values. rewrite Hw. simpl.
    rewrite filter_none; [done |]. intros t Ht. by apply elem_of_nil in Ht. }
  rewrite Hw0, value_ratio_spec_nonneg_mean by done.
  fold (win_pattern_raw self cid).
  symmetry. apply clamp_above; [done | discriminate].
Qed.

(** C2, as the specification states it, fails: COMP_A won one tender of
    value 100 among ten tenders of mean value 1000; the value ratio is 0.1,
    the win frequency 0.1, and the factor is -0.25, not the clamped 0.0. *)
Lemma win_pattern_negative :
  ∃ self, __init__ small_win_data = Some self ∧
    _check_tender_patterns self "COMP_A" == -0.25 ∧
    win_pattern_spec self "COMP_A" == 0 ∧
    ¬ (_check_tender_patterns self "COMP_A" == win_pattern_spec self "COMP_A") ∧
    ¬ (0 <= _check_tender_patterns self "COMP_A")%Q.
Proof.
  eexists. split; [reflexivity |].
  split; [by vm_compute |]. split; [by vm_compute |].
  split; by vm_compute.
Qed.

Lemma check_tender_patterns_capped_witness :
  ∃ self, __init__ small_win_data = Some self ∧
    _check_tender_patterns self "COMP_Z" = 0%Q ∧
    _check_tender_patterns self "COMP_A" = Qmin (win_pattern_raw self "COMP_A") 1.0 ∧
    _check_tender_patterns self "COMP_B" == win_pattern_spec self "COMP_B".
Proof.
  eexists. split; [reflexivity |].
  match goal with |- _check_tender_patterns ?s _ = _ ∧ _ =>
    pose proof (check_tender_patterns_capped s "COMP_Z") as (HZ & _);
    pose proof (check_tender_patterns_capped s "COMP_A") as (_ & _ & HA & _);
    pose proof (check_tender_patterns_capped s "COMP_B") as (_ & _ & _ & _ & HB)
  end.
  split; [apply HZ; by vm_compute |].
  split; [apply HA; by vm_compute |].
  apply HB; by vm_compute.
Defined.

(** ** The factors are not negative, the win pattern apart *)

Lemma Qnat_div_nonneg (n : nat) (d : Q) : (0 < d)%Q → (0 <= Qnat n / d)%Q.
Proof.
  intros Hd. apply Qle_shift_div_l; [done |]. rewrite Qmult_0_l. apply Qnat_nonneg.
Qed.

Lemma Qplus_nonneg (a b : Q) : (0 <= a → 0 <= b → 0 <= a + b)%Q.
Proof.
  intros Ha Hb. rewrite <- (Qplus_0_r 0). by apply Qplus_le_compat.
Qed.

Lemma check_shared_directors_nonneg (self : RiskScoringEngine) (cid : string) :
  (0 <= _check_shared_directors self cid)%Q.
Proof.
  unfold _check_shared_directors. destruct (length _ =? 0)%nat; [discriminate |].
  apply Q.min_glb; [by apply Qnat_div_nonneg | discriminate].
Qed.

Lemma calculate_centrality_nonneg (self : RiskScoringEngine) (entity_id : string) :
  (0 <= _calculate_centrality self entity_id)%Q.
Proof.
  unfold _calculate_centrality.
  destruct (negb _); [discriminate |].
  destruct (0 <? (if (0 <? _)%nat then _ else _))%nat eqn:Hmax; [| discriminate].
  apply Qnat_div_nonneg. apply Nat.ltb_lt in Hmax.
  unfold Qnat, Qlt. simpl. lia.
Qed.

Lemma check_shell_indicators_nonneg (self : RiskScoringEngine) (cid : string) (shell : Q) :
  _check_shell_indicators self cid = Some shell → (0 <= shell)%Q.
Proof.
  unfold _check_shell_indicators.
  destruct (iloc0 _) as [company|]; simpl; [| done]. intros [= <-].
  apply Qplus_nonneg.
  - apply Q.min_glb; [by apply Qnat_div_nonneg | discriminate].
  - apply Q.min_glb; [by apply Qnat_div_nonneg | discriminate].
Qed.

Lemma check_shell_indicators_is_Some (self : RiskScoringEngine) (cid : string) :
  cid ∈ company_id <$> companies self → is_Some (_check_shell_indicators self cid).
Proof.
  intros (row & -> & Hin)%list_elem_of_fmap. unfold _check_shell_indicators.
  destruct (iloc0_filter_is_Some (λ c, company_id c = company_id row)
              (companies self) row Hin eq_refl) as [company ->].
  simpl. by eexists.
Qed.

(** ** The aggregate score *)

(** The result of [calculate_company_risk_score] for a company of the table. *)
Lemma calculate_company_risk_score_Some (self : RiskScoringEngine) (cid : string) :
  cid ∈ company_id <$> companies self →
  ∃ shell score conf inds,
    _check_shell_indicators self cid = Some shell ∧
    calculate_company_risk_score self cid = Some (score, conf, inds) ∧
    score == Qmin (weighted_sum (_check_shared_directors self cid)
                     (_check_tender_patterns self cid)
                     (_calculate_centrality self cid) shell) 1 ∧
    conf = _calculate_confidence self cid.
Proof.
  intros Hcid. destruct (check_shell_indicators_is_Some self cid Hcid) as [shell Hshell].
  apply list_elem_of_fmap in Hcid as (row & -> & Hin).
  unfold calculate_company_risk_score.
  destruct (iloc0_filter_is_Some (λ c, company_id c = company_id row)
              (companies self) row Hin eq_refl) as [company ->].
  rewrite Hshell. simpl.
  eexists shell, _, _, _. split; [done |]. split; [reflexivity |].
  split; [| reflexivity].
  apply Q.min_compat; [| reflexivity].
  unfold Qsum, weighted_sum. simpl. ring.
Qed.

(** C1, as the code has it.  For a company of the table the risk score is
    the weighted sum capped at 1: [min(0.25·shared_directors +
    0.30·win_pattern + 0.20·centrality + 0.25·shell_similarity, 1)].  It
    never exceeds 1; it is not bounded below by the code, and it lies in the
    unit interval, where it equals the clamped sum, whenever the win-pattern
    factor is not negative. *)
Theorem risk_score_capped (self : RiskScoringEngine) (cid : string) :
  cid ∈ company_id <$> companies self →
  ∃ shell score conf inds,
    _check_shell_indicators self cid = Some shell ∧
    calculate_company_risk_score self cid = Some (score, conf, inds) ∧
    let weighted := weighted_sum (_check_shared_directors self cid)
                      (_check_tender_patterns self cid)
                      (_calculate_centrality self cid) shell in
    score == Qmin weighted 1 ∧
    (score <= 1)%Q ∧
    ((0 <= _check_tender_patterns self cid)%Q →
       (0 <= score <= 1)%Q ∧ score == clamp weighted 0 1).
Proof.
  intros Hcid.
  destruct (calculate_company_risk_score_Some self cid Hcid)
    as (shell & score & conf & inds & Hshell & Hcalc & Hscore & _).
  exists shell, score, conf, inds. split; [done |]. split; [done |]. simpl.
  split; [done |].
  assert (Hle : (score <= 1)%Q) by (rewrite Hscore; apply Q.le_min_r).
  split; [done |]. intros Hwp.
  assert (Hsum : (0 <= weighted_sum (_check_shared_directors self cid)
                         (_check_tender_patterns self cid)
                         (_calculate_centrality self cid) shell)%Q).
  { unfold weighted_sum.
    pose proof (check_shared_directors_nonneg self cid) as Hsd.
    pose proof (calculate_centrality_nonneg self cid) as Hcen.
    pose proof (check_shell_indicators_nonneg self cid shell Hshell) as Hsh.
    repeat (apply Qplus_nonneg); apply Qmult_le_0_compat; done. }
  split; [split; [| done] |].
  - rewrite Hscore. apply Q.min_glb; [done | discriminate].
  - rewrite Hscore. symmetry. apply clamp_above; [done | discriminate].
Qed.

(** C1, as the specification states it, fails: for COMP_A, with one small
    win among ten tenders and a quarter of the largest degree, the weighted
    sum is -0.025 and so is the returned score, outside the unit interval
    and different from the clamped sum. *)
Lemma risk_score_negative :
  ∃ self shell score conf inds,
    __init__ small_win_data = Some self ∧
    "COMP_A" ∈ company_id <$> companies self ∧
    _check_shell_indicators self "COMP_A" = Some shell ∧
    calculate_company_risk_score self "COMP_A" = Some (score, conf, inds) ∧
    score == -0.025 ∧
    ¬ (0 <= score)%Q ∧
    ¬ (score == clamp (weighted_sum (_check_shared_directors self "COMP_A")
                         (_check_tender_patterns self "COMP_A")
                         (_calculate_centrality self "COMP_A") shell) 0 1).
Proof.
  eexists _, _, _, _, _. split; [reflexivity |].
  split; [apply list_elem_of_here |].
  split; [vm_compute; reflexivity |].
  split; [vm_compute; reflexivity |].
  split; [by vm_compute |]. split; by vm_compute.
Qed.

Lemma risk_score_capped_witness :
  ∃ self, __init__ shared_director_data = Some self ∧
    ∃ score conf inds,
      calculate_company_risk_score self "COMP_A" = Some (score, conf, inds) ∧
      (0 <= score <= 1)%Q.
Proof.
  eexists. split; [reflexivity |].
  match goal with |- context [calculate_company_risk_score ?s _] =>
    destruct (risk_score_capped s "COMP_A")
      as (shell & score & conf & inds & _ & Hcalc & _ & _ & Hunit)
  end.
  - vm_compute. apply list_elem_of_here.
  - exists score, conf, inds. split; [exact Hcalc |].
    apply Hunit. by vm_compute.
Defined.

(** ** Risk indicators *)

Lemma elem_of_if_singleton {A} (b : bool) (x y : A) :
  y ∈ (if b then [x] else []) ↔ b = true ∧ y = x.
Proof.
  destruct b.
  - rewrite list_elem_of_singleton. tauto.
  - rewrite elem_of_nil. split; [tauto | by intros [? _]].
Qed.

(** The list of indicators is the four guarded appends, in factor order. *)
Lemma calculate_company_risk_score_indicators (self : RiskScoringEngine) (cid : string)
    (score conf : Q) (inds : list RiskIndicator) :
  calculate_company_risk_score self cid = Some (score, conf, inds) →
  ∃ shell, _check_shell_indicators self cid = Some shell ∧
    inds =
      (if Qgt_bool (_check_shared_directors self cid) 0.3
       then [shared_directors_indicator (_check_shared_directors self cid)] else [])
      ++ (if Qgt_bool (_check_tender_patterns self cid) 0.4
          then [win_pattern_indicator (_check_tender_patterns self cid)] else [])
      ++ (if Qgt_bool (_calculate_centrality self cid) 0.5
          then [centrality_indicator] else [])
      ++ (if Qgt_bool shell 0.5 then [shell_indicator] else []).
Proof.
  unfold calculate_company_risk_score.
  destruct (iloc0 _) as [company|]; simpl; [| done].
  destruct (_check_shell_indicators self cid) as [shell|]; simpl; [| done].
  intros [= _ _ <-]. exists shell. split; [done |].
  destruct (Qgt_bool (_check_shared_directors self cid) 0.3),
    (Qgt_bool (_check_tender_patterns self cid) 0.4),
    (Qgt_bool (_calculate_centrality self cid) 0.5),
    (Qgt_bool shell 0.5); reflexivity.
Qed.

(** C8.  An indicator is in the returned list exactly when its factor
    exceeds the display threshold: Shared Directors above 0.3, High above
    0.6 and Medium otherwise; Suspicious Win Pattern above 0.4, High above
    0.7 and Medium otherwise; High Network Centrality above 0.5, Medium;
    Shell Company Indicators above 0.5, High.  When four other companies
    share the address of the company and none shares its registration year,
    the shell factor is 0.8 and the High shell indicator is emitted. *)
Theorem risk_indicators_spec (self : RiskScoringEngine) (cid : string)
    (score conf : Q) (inds : list RiskIndicator) :
  calculate_company_risk_score self cid = Some (score, conf, inds) →
  ∃ shell company,
    _check_shell_indicators self cid = Some shell ∧
    iloc0 (filter (λ c, company_id c = cid) (companies self)) = Some company ∧
    let sd := _check_shared_directors self cid in
    let wp := _check_tender_patterns self cid in
    let cen := _calculate_centrality self cid in
    (∀ i, i ∈ inds ↔
       ((0.3 < sd)%Q ∧ i = shared_directors_indicator sd) ∨
       ((0.4 < wp)%Q ∧ i = win_pattern_indicator wp) ∨
       ((0.5 < cen)%Q ∧ i = centrality_indicator) ∨
       ((0.5 < shell)%Q ∧ i = shell_indicator)) ∧
    (indicator (shared_directors_indicator sd) = "Shared Directors" ∧
     ((0.6 < sd)%Q → severity (shared_directors_indicator sd) = "High") ∧
     ((sd <= 0.6)%Q → severity (shared_directors_indicator sd) = "Medium")) ∧
    (indicator (win_pattern_indicator wp) = "Suspicious Win Pattern" ∧
     ((0.7 < wp)%Q → severity (win_pattern_indicator wp) = "High") ∧
     ((wp <= 0.7)%Q → severity (win_pattern_indicator wp) = "Medium")) ∧
    (indicator centrality_indicator = "High Network Centrality" ∧
     severity centrality_indicator = "Medium") ∧
    (indicator shell_indicator = "Shell Company Indicators" ∧
     severity shell_indicator = "High") ∧
    (length (filter (λ c, address c = address company ∧ company_id c ≠ cid)
                    (companies self)) = 4%nat →
     length (filter (λ c, registration_year c = registration_year company
                          ∧ company_id c ≠ cid) (companies self)) = 0%nat →
     shell == 0.8 ∧ shell_indicator ∈ inds).
Proof.
  intros Hcalc.
  destruct (calculate_company_risk_score_indicators self cid score conf inds Hcalc)
    as (shell & Hshell & Hinds).
  assert (Hcompany : ∃ company,
    iloc0 (filter (λ c, company_id c = cid) (companies self)) = Some company).
  { unfold _check_shell_indicators in Hshell.
    destruct (iloc0 _) as [company|]; [by exists company | done]. }
  destruct Hcompany as [company Hcompany].
  exists shell, company. split; [done |]. split; [done |]. simpl.
  assert (Hmem : ∀ i, i ∈ inds ↔
       ((0.3 < _check_shared_directors self cid)%Q
        ∧ i = shared_directors_indicator (_check_shared_directors self cid)) ∨
       ((0.4 < _check_tender_patterns self cid)%Q
        ∧ i = win_pattern_indicator (_check_tender_patterns self cid)) ∨
       ((0.5 < _calculate_centrality self cid)%Q ∧ i = centrality_indicator) ∨
       ((0.5 < shell)%Q ∧ i = shell_indicator)).
  { intros i. rewrite Hinds, !elem_of_app, !elem_of_if_singleton, !Qgt_bool_iff.
    tauto. }
  split; [exact Hmem |].
  split.
  { split; [done |]. unfold shared_directors_indicator. simpl. split.
    - intros H. by rewrite (proj2 (Qgt_bool_iff _ _) H).
    - intros H. by rewrite (proj2 (Qgt_bool_false_iff _ _) H). }
  split.
  { split; [done |]. unfold win_pattern_indicator. simpl. split.
    - intros H. by rewrite (proj2 (Qgt_bool_iff _ _) H).
    - intros H. by rewrite (proj2 (Qgt_bool_false_iff _ _) H). }
  split; [done |]. split; [done |].
  intros Haddr Hyear.
  assert (Hval : shell == 0.8).
  { unfold _check_shell_indicators in Hshell. rewrite Hcompany in Hshell.
    simpl in Hshell. rewrite Haddr, Hyear in Hshell.
    injection Hshell as <-. by vm_compute. }
  split; [exact Hval |].
  apply Hmem. do 3 right. split; [| done]. rewrite Hval. reflexivity.
Qed.

Lemma risk_indicators_spec_witness :
  ∃ self, __init__ shared_address_data = Some self ∧
    Forall (λ c, ∃ shell score conf inds,
              _check_shell_indicators self (company_id c) = Some shell ∧
              calculate_company_risk_score self (company_id c)
                = Some (score, conf, inds) ∧
              shell == 0.8 ∧ shell_indicator ∈ inds)
           (companies self).
Proof.
  eexists. split; [reflexivity |].
  repeat apply Forall_cons_2; [.. | apply Forall_nil_2].
  all: match goal with |- ∃ shell score conf inds,
         _ ∧ calculate_company_risk_score ?s ?cid = _ ∧ _ =>
       let r := eval vm_compute in (calculate_company_risk_score s cid) in
       match r with
       | Some (?score, ?conf, ?inds) =>
           destruct (risk_indicators_spec s cid score conf inds)
             as (shell & company & Hshell & Hcompany & _ & _ & _ & _ & _ & Hscen);
           [ vm_compute; reflexivity
           | exists shell, score, conf, inds;
             split; [exact Hshell |];
             split; [vm_compute; reflexivity |];
             vm_compute in Hcompany; injection Hcompany as <-;
             apply Hscen; vm_compute; reflexivity ]
       end
     end.
Defined.

(** * Further properties of the engine *)

(** ** Edges come from relationship rows only *)

Lemma adj_rel_alter_inv (A : gmap string (gmap string string)) (i k t x y : string) :
  adj_rel (alter (insert k t) i A) x y → adj_rel A x y ∨ (x = i ∧ y = k).
Proof.
  intros (nbrs & Hx & Hy). destruct (decide (i = x)) as [-> | Hne].
  - rewrite lookup_alter_eq in Hx.
    apply fmap_Some in Hx as (nbrs0 & Hx0 & ->).
    apply lookup_insert_is_Some in Hy as [<- | [_ Hy]]; [by right |].
    left. by exists nbrs0.
  - rewrite lookup_alter_ne in Hx by done. left. by exists nbrs.
Qed.

Lemma adjacent_ensure_node_inv (n : string) (G : Graph) (x y : string) :
  adjacent (ensure_node n G) x y → adjacent G x y.
Proof.
  unfold adjacent, ensure_node.
  destruct (_node G !! n) as [a|]; simpl; [done |].
  intros (nbrs & Hx & Hy). destruct (decide (n = x)) as [-> | Hne].
  - rewrite lookup_insert_eq in Hx. injection Hx as <-.
    rewrite lookup_empty in Hy. by destruct Hy.
  - rewrite lookup_insert_ne in Hx by done. by exists nbrs.
Qed.

Lemma adjacent_add_node_inv (n : string) (attr : gmap string AttrVal) (G : Graph)
    (x y : string) :
  adjacent (add_node n attr G) x y → adjacent G x y.
Proof.
  unfold adjacent, add_node.
  destruct (_node G !! n) as [a|]; simpl; [done |].
  intros (nbrs & Hx & Hy). destruct (decide (n = x)) as [-> | Hne].
  - rewrite lookup_insert_eq in Hx. injection Hx as <-.
    rewrite lookup_empty in Hy. by destruct Hy.
  - rewrite lookup_insert_ne in Hx by done. by exists nbrs.
Qed.

Lemma adjacent_add_edge_inv (u v t : string) (G : Graph) (x y : string) :
  adjacent (add_edge u v t G) x y →
  adjacent G x y ∨ (x = u ∧ y = v) ∨ (x = v ∧ y = u).
Proof.
  unfold adjacent at 1, add_edge. simpl.
  intros [[H | H]%adj_rel_alter_inv | H]%adj_rel_alter_inv.
  - left. by apply adjacent_ensure_node_inv, adjacent_ensure_node_inv in H.
  - right. by left.
  - right. by right.
Qed.

Lemma adjacent_add_edges_inv (rows : list Relationship) (G : Graph) (x y : string) :
  adjacent (add_edges rows G) x y → adjacent G x y ∨ joined rows x y.
Proof.
  unfold add_edges. revert G. induction rows as [| row rows IH]; intros G; simpl.
  - by left.
  - intros [[H | H]%adjacent_add_edge_inv | (r & Hr & Hj)]%IH.
    + by left.
    + right. exists row. split; [apply list_elem_of_here |].
      destruct H as [[-> ->] | [-> ->]]; tauto.
    + right. exists r. split; [by apply list_elem_of_further | done].
Qed.

Lemma adjacent_add_company_nodes_inv (rows : list Company) (G : Graph) (x y : string) :
  adjacent (add_company_nodes rows G) x y → adjacent G x y.
Proof.
  unfold add_company_nodes. revert G. induction rows as [| row rows IH]; intros G; simpl;
    [done |].
  intros H%IH. by apply adjacent_add_node_inv in H.
Qed.

Lemma adjacent_add_director_nodes_inv (rows : list Director) (G : Graph) (x y : string) :
  adjacent (add_director_nodes rows G) x y → adjacent G x y.
Proof.
  unfold add_director_nodes. revert G. induction rows as [| row rows IH]; intros G; simpl;
    [done |].
  intros H%IH. by apply adjacent_add_node_inv in H.
Qed.

Lemma adjacent_add_tender_nodes_inv (rows : list Tender) (G : Graph) (x y : string) :
  adjacent (add_tender_nodes rows G) x y → adjacent G x y.
Proof.
  unfold add_tender_nodes. revert G. induction rows as [| row rows IH]; intros G; simpl;
    [done |].
  intros H%IH. by apply adjacent_add_node_inv in H.
Qed.

Lemma graph_wf_build (cs : list Company) (ds : list Director) (ts : list Tender)
    (rs : list Relationship) :
  graph_wf (_build_networkx_graph cs ds ts rs).
Proof.
  unfold _build_networkx_graph.
  apply add_edges_edges, graph_wf_add_tender_nodes, graph_wf_add_director_nodes,
    graph_wf_add_company_nodes, graph_wf_empty.
Qed.

Lemma joined_sym (rs : list Relationship) (u v : string) : joined rs u v → joined rs v u.
Proof.
  intros (r & Hr & Hj). exists r. split; [done | tauto].
Qed.

Lemma adjacent_build_iff (cs : list Company) (ds : list Director) (ts : list Tender)
    (rs : list Relationship) (x y : string) :
  adjacent (_build_networkx_graph cs ds ts rs) x y ↔ joined rs x y.
Proof.
  split.
  - unfold _build_networkx_graph.
    intros [H | H]%adjacent_add_edges_inv; [| done].
    apply adjacent_add_tender_nodes_inv, adjacent_add_director_nodes_inv,
      adjacent_add_company_nodes_inv in H.
    destruct H as (nbrs & Hx & _). simpl in Hx. by rewrite lookup_empty in Hx.
  - intros (r & Hr & Hj). unfold _build_networkx_graph.
    destruct (add_edges_edges rs
      (add_tender_nodes ts (add_director_nodes ds (add_company_nodes cs nx_Graph))))
      as (_ & _ & Hnew).
    { apply graph_wf_add_tender_nodes, graph_wf_add_director_nodes,
        graph_wf_add_company_nodes, graph_wf_empty. }
    destruct (Hnew r Hr) as [H1 H2].
    destruct Hj as [[<- <-] | [<- <-]]; done.
Qed.

(** X1.  In the built graph two ids are joined by an edge exactly when some
    relationship row has them as its two endpoints, whatever its direction
    and type; so the graph is undirected and has no edge that is not a row. *)
Theorem build_graph_edges (cs : list Company) (ds : list Director) (ts : list Tender)
    (rs : list Relationship) (u v : string) :
  (adjacent (_build_networkx_graph cs ds ts rs) u v ↔ joined rs u v) ∧
  (adjacent (_build_networkx_graph cs ds ts rs) u v ↔
   adjacent (_build_networkx_graph cs ds ts rs) v u).
Proof.
  split; [apply adjacent_build_iff |].
  rewrite !adjacent_build_iff. split; apply joined_sym.
Qed.

(** ** Degrees *)

(** The degree counts the distinct neighbours, one more for a self-loop. *)
Lemma degree_neighbours (G : Graph) (n : string) :
  ∃ N : gset string,
    (∀ v, v ∈ N ↔ adjacent G n v) ∧
    degree G n = (size N + (if decide (n ∈ N) then 1 else 0))%nat.
Proof.
  unfold degree, adjacent, adj_rel.
  destruct (_adj G !! n) as [nbrs|] eqn:Hn.
  - exists (dom nbrs). split.
    + intros v. rewrite elem_of_dom. split.
      * intros Hv. by exists nbrs.
      * by intros (nbrs' & [= <-] & Hv).
    + rewrite size_dom. f_equal.
      destruct (nbrs !! n) as [t|] eqn:Hself.
      * rewrite decide_True; [done |]. apply elem_of_dom. by eexists.
      * rewrite decide_False; [done |]. rewrite elem_of_dom, Hself. by intros [? ?].
  - exists ∅. split.
    + intros v. split; [by intros ?%not_elem_of_empty | by intros (? & ? & _)].
    + rewrite decide_False by apply not_elem_of_empty. by rewrite size_empty.
Qed.

(** X2.  The degree of an id in the built graph is the number of distinct
    ids that some relationship row joins it to, plus one when a row joins
    it to itself: parallel rows between the same two ids count once. *)
Theorem build_graph_degree (cs : list Company) (ds : list Director) (ts : list Tender)
    (rs : list Relationship) (n : string) :
  ∃ N : gset string,
    (∀ v, v ∈ N ↔ joined rs n v) ∧
    degree (_build_networkx_graph cs ds ts rs) n
    = (size N + (if decide (n ∈ N) then 1 else 0))%nat.
Proof.
  destruct (degree_neighbours (_build_networkx_graph cs ds ts rs) n) as (N & HN & Hdeg).
  exists N. split; [| done]. intros v. rewrite HN.
  apply adjacent_build_iff.
Qed.

(** ** Nodes, isolated entities and centrality *)

(** X3.  The nodes of the built graph are exactly the ids of the company,
    director and tender tables together with the endpoints of the
    relationship rows; and the confidence of an id is the fallback 0.3
    exactly when the id is none of these. *)
Theorem build_graph_nodes (data : Data) (self : RiskScoringEngine) (entity_id : string) :
  __init__ data = Some self →
  (has_node (graph self) entity_id = true ↔
     entity_id ∈ table_ids data
     ∨ entity_id ∈ source_id <$> data_relationships data
     ∨ entity_id ∈ target_id <$> data_relationships data) ∧
  (_calculate_confidence self entity_id == 0.3 ↔
     ¬ (entity_id ∈ table_ids data
        ∨ entity_id ∈ source_id <$> data_relationships data
        ∨ entity_id ∈ target_id <$> data_relationships data)).
Proof.
  intros [= <-]. simpl.
  assert (Hn : has_node (_build_networkx_graph (data_companies data) (data_directors data)
                 (data_tenders data) (data_relationships data)) entity_id = true ↔
     entity_id ∈ table_ids data
     ∨ entity_id ∈ source_id <$> data_relationships data
     ∨ entity_id ∈ target_id <$> data_relationships data).
  { rewrite has_node_build. unfold table_ids. rewrite !elem_of_app. tauto. }
  split; [exact Hn |]. rewrite <- Hn.
  set (self := {| graph := _build_networkx_graph _ _ _ _ |}).
  change (_build_networkx_graph _ _ _ _) with (graph self).
  destruct (has_node (graph self) entity_id) eqn:Hh.
  - destruct (confidence_present_range self entity_id Hh) as [Hlo _]. split.
    + intros Heq. rewrite Heq in Hlo. by vm_compute in Hlo.
    + intros Hno. by destruct Hno.
  - rewrite (confidence_absent self entity_id Hh). split; [by intros _ ? | reflexivity].
Qed.

Lemma build_graph_nodes_witness :
  ∃ self, __init__ issued_by_data = Some self ∧
    has_node (graph self) "DEPT_01" = true ∧
    _calculate_confidence self "DEPT_02" == 0.3.
Proof.
  eexists. split; [reflexivity |].
  match goal with |- has_node (graph ?s) _ = _ ∧ _ =>
    pose proof (build_graph_nodes issued_by_data s "DEPT_01" eq_refl) as [H1 _];
    pose proof (build_graph_nodes issued_by_data s "DEPT_02" eq_refl) as [_ H2]
  end.
  split.
  - apply H1. do 2 right. vm_compute. apply list_elem_of_here.
  - apply H2. apply (bool_decide_unpack _). by vm_compute.
Defined.

Lemma degree_le_max (G : Graph) (n : string) :
  has_node G n = true → (degree G n ≤ max_list (degrees G))%nat.
Proof.
  intros (a & Ha)%has_node_is_Some. apply max_list_elem_of_le.
  unfold degrees. apply list_elem_of_fmap_2, list_elem_of_fmap.
  exists (n, a). split; [done |]. by apply elem_of_map_to_list.
Qed.

Lemma Qnat_le (n m : nat) : (n ≤ m)%nat → (Qnat n <= Qnat m)%Q.
Proof.
  intros H. unfold Qnat, Qle. simpl. lia.
Qed.

Lemma calculate_centrality_le_1 (self : RiskScoringEngine) (entity_id : string) :
  (_calculate_centrality self entity_id <= 1)%Q.
Proof.
  unfold _calculate_centrality.
  destruct (has_node (graph self) entity_id) eqn:Hn; simpl; [| discriminate].
  assert (Hnodes : (0 <? number_of_nodes (graph self))%nat = true).
  { apply Nat.ltb_lt. unfold number_of_nodes.
    apply has_node_is_Some in Hn as [a Ha].
    assert (size (_node (graph self)) ≠ 0)%nat; [| lia].
    apply map_size_ne_0_lookup. by exists entity_id, a. }
  rewrite Hnodes.
  destruct (0 <? max_list (degrees (graph self)))%nat eqn:Hmax; [| discriminate].
  apply Nat.ltb_lt in Hmax.
  apply Qle_shift_div_r; [unfold Qnat, Qlt; simpl; lia |].
  rewrite Qmult_1_l. by apply Qnat_le, degree_le_max.
Qed.

Lemma degree_zero (G : Graph) (n : string) :
  (∀ v, ¬ adjacent G n v) → degree G n = 0%nat.
Proof.
  intros Hno. destruct (degree_neighbours G n) as (N & HN & ->).
  assert (HN0 : N = ∅).
  { apply set_eq. intros v. rewrite HN. split; [by intros ?%Hno | by intros ?%not_elem_of_empty]. }
  rewrite HN0, size_empty. by rewrite decide_False by apply not_elem_of_empty.
Qed.

(** X4.  The centrality factor lies between 0 and 1 for every id; and an
    entity of a table that no relationship row mentions has degree 0,
    centrality exactly 0 and confidence exactly 0.5. *)
Theorem centrality_range_and_isolated (data : Data) (self : RiskScoringEngine)
    (entity_id : string) :
  __init__ data = Some self →
  (0 <= _calculate_centrality self entity_id <= 1)%Q ∧
  (entity_id ∈ table_ids data →
   (∀ v, ¬ joined (data_relationships data) entity_id v) →
   degree (graph self) entity_id = 0%nat ∧
   _calculate_centrality self entity_id == 0 ∧
   _calculate_confidence self entity_id == 0.5).
Proof.
  intros Hinit.
  split; [split; [apply calculate_centrality_nonneg | apply calculate_centrality_le_1] |].
  intros Hid Hiso. injection Hinit as <-.
  set (self := {| graph := _build_networkx_graph _ _ _ _ |}).
  assert (Hdeg : degree (graph self) entity_id = 0%nat).
  { apply degree_zero. intros v Hv. apply (Hiso v). by apply adjacent_build_iff in Hv. }
  assert (Hn : has_node (graph self) entity_id = true).
  { apply has_node_build. unfold table_ids in Hid. rewrite !elem_of_app in Hid. tauto. }
  split; [done |]. split.
  - unfold _calculate_centrality. rewrite Hn, Hdeg. simpl.
    destruct (0 <? _)%nat; [| reflexivity]. unfold Qdiv. by rewrite Qmult_0_l.
  - rewrite confidence_present by done. rewrite Hdeg. by vm_compute.
Qed.

Lemma centrality_range_and_isolated_witness :
  ∃ self, __init__ isolated_data = Some self ∧
    degree (graph self) "COMP_A" = 0%nat ∧
    _calculate_centrality self "COMP_A" == 0 ∧
    _calculate_confidence self "COMP_A" == 0.5.
Proof.
  eexists. split; [reflexivity |].
  match goal with |- degree (graph ?s) _ = _ ∧ _ =>
    pose proof (centrality_range_and_isolated isolated_data s "COMP_A" eq_refl) as [_ H]
  end.
  apply H.
  - vm_compute. apply list_elem_of_here.
  - intros v (r & Hr & Hj). vm_compute in Hr.
    apply list_elem_of_singleton in Hr as ->. simpl in Hj.
    destruct Hj as [[? _] | [_ ?]]; discriminate.
Defined.

(** ** When scoring raises, and how low a score can be *)

Lemma iloc0_filter_Some_inv {A} (P : A → Prop) `{∀ x, Decision (P x)}
    (rows : list A) (x : A) :
  iloc0 (filter P rows) = Some x → x ∈ rows ∧ P x.
Proof.
  unfold iloc0. intros Hx%head_Some_elem_of%list_elem_of_filter. tauto.
Qed.

Lemma check_shell_indicators_Some_inv (self : RiskScoringEngine) (cid : string) :
  is_Some (_check_shell_indicators self cid) → cid ∈ company_id <$> companies self.
Proof.
  unfold _check_shell_indicators. intros [shell Hs].
  destruct (iloc0 _) as [company|] eqn:Hc; [| done].
  apply iloc0_filter_Some_inv in Hc as [Hin <-]. by apply list_elem_of_fmap_2.
Qed.




Lemma length_if_singleton {A} (b : bool) (x : A) :
  (length (if b then [x] else []) ≤ 1)%nat.
Proof. destruct b; simpl; lia. Qed.

(** X6.  [calculate_company_risk_score] raises exactly when the id is not
    in the companies table.  When it returns, the confidence is that of
    [_calculate_confidence], at most four indicators are listed and none
    twice. *)
Theorem calculate_company_risk_score_defined (self : RiskScoringEngine) (cid : string) :
  (is_Some (calculate_company_risk_score self cid)
   ↔ cid ∈ company_id <$> companies self) ∧
  (∀ score conf inds,
     calculate_company_risk_score self cid = Some (score, conf, inds) →
     conf = _calculate_confidence self cid ∧ (length inds ≤ 4)%nat ∧ NoDup inds).
Proof.
  split.
  - split.
    + intros [[[score conf] inds] Hcalc].
      destruct (calculate_company_risk_score_indicators self cid score conf inds Hcalc)
        as (shell & Hshell & _).
      apply check_shell_indicators_Some_inv. by eexists.
    + intros Hcid.
      destruct (calculate_company_risk_score_Some self cid Hcid)
        as (shell & score & conf & inds & _ & -> & _). by eexists.
  - intros score conf inds Hcalc.
    destruct (calculate_company_risk_score_indicators self cid score conf inds Hcalc)
      as (shell & Hshell & ->).
    split; [| split].
    + assert (Hcid : cid ∈ company_id <$> companies self)
        by (apply check_shell_indicators_Some_inv; by eexists).
      destruct (calculate_company_risk_score_Some self cid Hcid)
        as (shell' & score' & conf' & inds' & _ & Hcalc' & _ & ->).
      rewrite Hcalc in Hcalc'. by injection Hcalc' as _ -> _.
    + rewrite !length_app.
      pose proof (length_if_singleton (Qgt_bool (_check_shared_directors self cid) 0.3)
                    (shared_directors_indicator (_check_shared_directors self cid))).
      pose proof (length_if_singleton (Qgt_bool (_check_tender_patterns self cid) 0.4)
                    (win_pattern_indicator (_check_tender_patterns self cid))).
      pose proof (length_if_singleton (Qgt_bool (_calculate_centrality self cid) 0.5)
                    centrality_indicator).
      pose proof (length_if_singleton (Qgt_bool shell 0.5) shell_indicator).
      lia.
    + destruct (Qgt_bool (_check_shared_directors self cid) 0.3),
        (Qgt_bool (_check_tender_patterns self cid) 0.4),
        (Qgt_bool (_calculate_centrality self cid) 0.5),
        (Qgt_bool shell 0.5); simpl;
        repeat (apply NoDup_cons; split;
                [ rewrite ?elem_of_cons, elem_of_nil;
                  unfold shared_directors_indicator, win_pattern_indicator,
                    centrality_indicator, shell_indicator;
                  intros Hin; repeat destruct Hin as [Hin | Hin]; done
                | ]);
        apply NoDup_nil_2.
Qed.

Lemma calculate_company_risk_score_defined_witness :
  ∃ self, __init__ shared_address_data = Some self ∧
    ∃ score conf inds,
      calculate_company_risk_score self "COMP_1" = Some (score, conf, inds) ∧
      conf = _calculate_confidence self "COMP_1" ∧ (length inds ≤ 4)%nat ∧ NoDup inds.
Proof.
  eexists. split; [reflexivity |].
  match goal with |- ∃ score conf inds, calculate_company_risk_score ?s ?c = _ ∧ _ =>
    pose proof (calculate_company_risk_score_defined s c) as [_ H]
  end.
  eexists _, _, _. split; [vm_compute; reflexivity |].
  eapply H. vm_compute. reflexivity.
Defined.

Lemma Qsum_from_nonneg (xs : list Q) (acc : Q) :
  Forall (λ x, 0 <= x)%Q xs → (0 <= acc)%Q → (0 <= fold_left Qplus xs acc)%Q.
Proof.
  revert acc. induction xs as [| x xs IH]; intros acc Hxs Hacc; simpl; [done |].
  apply Forall_cons in Hxs as [Hx Hxs]. apply IH; [done |]. by apply Qplus_nonneg.
Qed.

Lemma Qdiv_nonneg (a b : Q) : (0 <= a → 0 <= b → 0 <= a / b)%Q.
Proof.
  intros Ha Hb. unfold Qdiv. apply Qmult_le_0_compat; [done |].
  by apply Qinv_le_0_compat.
Qed.

Lemma mean_nonneg (xs : list Q) : Forall (λ x, 0 <= x)%Q xs → (0 <= mean xs)%Q.
Proof.
  intros Hxs. unfold mean. apply Qdiv_nonneg; [| apply Qnat_nonneg].
  by apply Qsum_from_nonneg.
Qed.

Lemma check_tender_patterns_lower (self : RiskScoringEngine) (cid : string) :
  (∀ t, t ∈ tenders self → (0 <= contract_value t)%Q) →
  (-0.5 <= _check_tender_patterns self cid)%Q.
Proof.
  intros Hvals. unfold _check_tender_patterns.
  destruct (length _ =? 0)%nat; [discriminate |].
  destruct (length _ =? 0)%nat; [discriminate |].
  apply Q.min_glb; [| discriminate].
  match goal with |- (_ <= (?r - 1.0) * 0.5 + ?f * 2.0)%Q =>
    assert (Hr : (0 <= r)%Q); [| assert (Hf : (0 <= f)%Q); [| set (r' := r) in *;
      set (f' := f) in *; lra]]
  end.
  - destruct (Qgt_bool _ 0); [| discriminate].
    apply Qdiv_nonneg; apply mean_nonneg, Forall_fmap, Forall_forall.
    + intros t [_ Ht]%list_elem_of_filter. by apply Hvals.
    + intros t Ht. by apply Hvals.
  - apply Qdiv_nonneg; apply Qnat_nonneg.
Qed.

(** X7.  When no contract value is negative, the win-pattern factor is at
    least -0.5 and the risk score of a company lies between -0.15 and 1:
    the score can be negative, but never below -0.15. *)
Theorem risk_score_lower_bound (self : RiskScoringEngine) (cid : string)
    (score conf : Q) (inds : list RiskIndicator) :
  (∀ t, t ∈ tenders self → (0 <= contract_value t)%Q) →
  calculate_company_risk_score self cid = Some (score, conf, inds) →
  (-0.5 <= _check_tender_patterns self cid <= 1)%Q ∧ (-0.15 <= score <= 1)%Q.
Proof.
  intros Hvals Hcalc.
  pose proof (check_tender_patterns_lower self cid Hvals) as Hwp.
  split; [split; [done | apply check_tender_patterns_le_1] |].
  destruct (calculate_company_risk_score_indicators self cid score conf inds Hcalc)
    as (shell & Hshell & _).
  assert (Hcid : cid ∈ company_id <$> companies self)
    by (apply check_shell_indicators_Some_inv; by eexists).
  destruct (calculate_company_risk_score_Some self cid Hcid)
    as (shell' & score' & conf' & inds' & Hshell' & Hcalc' & Hscore & _).
  rewrite Hcalc in Hcalc'. injection Hcalc' as <- _ _.
  rewrite Hshell in Hshell'. injection Hshell' as <-.
  rewrite Hscore. split; [| apply Q.le_min_r].
  apply Q.min_glb; [| discriminate].
  pose proof (check_shared_directors_nonneg self cid) as Hsd.
  pose proof (calculate_centrality_nonneg self cid) as Hcen.
  pose proof (check_shell_indicators_nonneg self cid shell Hshell) as Hsh.
  unfold weighted_sum.
  set (sd := _check_shared_directors self cid) in *.
  set (wp := _check_tender_patterns self cid) in *.
  set (cen := _calculate_centrality self cid) in *.
  lra.
Qed.

Lemma risk_score_lower_bound_witness :
  ∃ self, __init__ small_win_data = Some self ∧
    ∃ score conf inds,
      calculate_company_risk_score self "COMP_A" = Some (score, conf, inds) ∧
      (-0.15 <= score <= 1)%Q.
Proof.
  eexists. split; [reflexivity |].
  match goal with |- ∃ score conf inds, calculate_company_risk_score ?s _ = _ ∧ _ =>
    pose (self := s)
  end.
  eexists _, _, _. split; [vm_compute; reflexivity |].
  refine (proj2 (risk_score_lower_bound self "COMP_A" _ _ _ _ _)).
  - intros t Ht. simpl in Ht.
    repeat (apply elem_of_cons in Ht as [-> | Ht]; [discriminate |]).
    by apply elem_of_nil in Ht.
  - vm_compute. reflexivity.
Defined.

(** ** The batch scorer *)

Lemma risk_score_row_Some (self : RiskScoringEngine) (company : Company)
    (row : RiskScoreRow) :
  risk_score_row self company = Some row →
  row_company_id row = company_id company ∧
  ∃ inds,
    calculate_company_risk_score self (company_id company)
      = Some (row_risk_score row, row_confidence_score row, inds) ∧
    row_indicator_count row = length inds ∧
    row_risk_category row = RiskCategory_value (get_risk_category (row_risk_score row)).
Proof.
  unfold risk_score_row.
  destruct (calculate_company_risk_score self (company_id company))
    as [[[score conf] inds]|]; simpl; [| done].
  intros [= <-]. simpl. split; [done |]. by exists inds.
Qed.

Lemma risk_score_row_is_Some (self : RiskScoringEngine) (company : Company) :
  company ∈ companies self → is_Some (risk_score_row self company).
Proof.
  intros Hin. unfold risk_score_row.
  destruct (calculate_company_risk_score_Some self (company_id company))
    as (shell & score & conf & inds & _ & -> & _); [by apply list_elem_of_fmap_2 |].
  simpl. by eexists.
Qed.

Lemma RiskCategory_value_High (c : RiskCategory) : RiskCategory_value c = "High" ↔ c = HIGH.
Proof. destruct c; simpl; split; done. Qed.

Lemma calculate_all_risk_scores_rows (self : RiskScoringEngine) :
  ∃ rows, calculate_all_risk_scores self = Some rows ∧
    row_company_id <$> rows = company_id <$> companies self ∧
    Forall (λ row, ∃ inds,
      calculate_company_risk_score self (row_company_id row)
        = Some (row_risk_score row, row_confidence_score row, inds) ∧
      row_indicator_count row = length inds ∧
      row_risk_category row
        = RiskCategory_value (get_risk_category (row_risk_score row)) ∧
      (row_risk_category row = "High" ↔ (0.7 <= row_risk_score row)%Q) ∧
      (row_risk_score row <= 1)%Q ∧
      (row_indicator_count row ≤ 4)%nat) rows.
Proof.
  unfold calculate_all_risk_scores.
  destruct (mapM_is_Some_2 (risk_score_row self) (companies self)) as [rows Hrows].
  { apply Forall_forall. intros company Hin. by apply risk_score_row_is_Some. }
  exists rows. split; [done |].
  apply mapM_Some_1 in Hrows.
  induction Hrows as [| company row cs rows Hrow _ [IHids IHall]]; [done |].
  destruct (risk_score_row_Some self company row Hrow) as (Hid & inds & Hcalc & Hcount & Hcat).
  split; [rewrite !fmap_cons; by rewrite Hid, IHids |].
  apply Forall_cons. split; [| done].
  exists inds. rewrite Hid. split; [done |]. split; [done |]. split; [done |].
  destruct (calculate_company_risk_score_indicators self _ _ _ _ Hcalc)
    as (shell & Hshell & Hinds).
  assert (Hcid : company_id company ∈ company_id <$> companies self)
    by (apply check_shell_indicators_Some_inv; by eexists).
  destruct (calculate_company_risk_score_Some self _ Hcid)
    as (shell' & score' & conf' & inds' & _ & Hcalc' & Hscore & _).
  rewrite Hcalc in Hcalc'. injection Hcalc' as <- _ _.
  split; [| split].
  - rewrite Hcat, RiskCategory_value_High.
    destruct (get_risk_category_cases (row_risk_score row))
      as [[H ->] | [[H1 [H2 ->]] | [H ->]]].
    + done.
    + split; [done |]. intros H7. exfalso. apply (Qlt_irrefl 0.7).
      eapply Qle_lt_trans; [exact H7 | exact H2].
    + split; [done |]. intros H7. exfalso. apply (Qlt_irrefl 0.7).
      eapply Qle_lt_trans; [exact H7 |]. eapply Qlt_trans; [exact H | reflexivity].
  - rewrite Hscore. apply Q.le_min_r.
  - rewrite Hcount, Hinds, !length_app.
    pose proof (length_if_singleton
      (Qgt_bool (_check_shared_directors self (company_id company)) 0.3)
      (shared_directors_indicator (_check_shared_directors self (company_id company)))).
    pose proof (length_if_singleton
      (Qgt_bool (_check_tender_patterns self (company_id company)) 0.4)
      (win_pattern_indicator (_check_tender_patterns self (company_id company)))).
    pose proof (length_if_singleton
      (Qgt_bool (_calculate_centrality self (company_id company)) 0.5)
      centrality_indicator).
    pose proof (length_if_singleton (Qgt_bool shell 0.5) shell_indicator).
    lia.
Qed.

(** X8.  [calculate_all_risk_scores] never raises.  It returns one row per
    row of the companies table, in table order and with its company id;
    the row holds the score, the confidence and the number of indicators
    that [calculate_company_risk_score] returns for that id, and the name of
    the category of that score: the category is High exactly when the score
    is at least 0.7.  No score exceeds 1 and no count exceeds four. *)
Theorem calculate_all_risk_scores_spec (self : RiskScoringEngine) :
  ∃ rows, calculate_all_risk_scores self = Some rows ∧
    row_company_id <$> rows = company_id <$> companies self ∧
    Forall (λ row, ∃ inds,
      calculate_company_risk_score self (row_company_id row)
        = Some (row_risk_score row, row_confidence_score row, inds) ∧
      row_indicator_count row = length inds ∧
      row_risk_category row
        = RiskCategory_value (get_risk_category (row_risk_score row)) ∧
      (row_risk_category row = "High" ↔ (0.7 <= row_risk_score row)%Q) ∧
      (row_risk_score row <= 1)%Q ∧
      (row_indicator_count row ≤ 4)%nat) rows.
Proof. apply calculate_all_risk_scores_rows. Qed.

(** ** Grouping a partition by community *)

Lemma communities_append_keys (k : Z) (n : string) (cs : list (Z * list string)) (c : Z) :
  c ∈ (communities_append k n cs).*1 ↔ c = k ∨ c ∈ cs.*1.
Proof.
  induction cs as [| [c' ms'] rest IH]; simpl.
  - rewrite list_elem_of_singleton, elem_of_nil. tauto.
  - destruct (decide (c' = k)) as [-> | Hne]; simpl.
    + rewrite !elem_of_cons. tauto.
    + rewrite !elem_of_cons, IH. tauto.
Qed.

Lemma communities_append_NoDup (k : Z) (n : string) (cs : list (Z * list string)) :
  NoDup cs.*1 → NoDup (communities_append k n cs).*1.
Proof.
  induction cs as [| [c' ms'] rest IH]; simpl; intros Hnd.
  - apply NoDup_singleton.
  - apply NoDup_cons in Hnd as [Hc' Hrest].
    destruct (decide (c' = k)) as [-> | Hne]; simpl.
    + by apply NoDup_cons.
    + apply NoDup_cons. split; [| by apply IH].
      rewrite communities_append_keys. intros [-> | ?]; done.
Qed.

Lemma elem_of_communities_append_iff (k : Z) (n : string)
    (cs : list (Z * list string)) (c : Z) (ms : list string) :
  NoDup cs.*1 →
  (c, ms) ∈ communities_append k n cs ↔
    (c ≠ k ∧ (c, ms) ∈ cs) ∨
    (c = k ∧ ((∃ ms0, (k, ms0) ∈ cs ∧ ms = ms0 ++ [n]) ∨ ((k ∉ cs.*1) ∧ ms = [n]))).
Proof.
  induction cs as [| [c' ms'] rest IH]; simpl; intros Hnd.
  - rewrite list_elem_of_singleton. split.
    + intros [= -> ->]. right. split; [done |]. right. split; [apply not_elem_of_nil | done].
    + intros [[_ H] | [-> [(ms0 & H & _) | [_ ->]]]]; [by apply elem_of_nil in H | | done].
      by apply elem_of_nil in H.
  - apply NoDup_cons in Hnd as [Hc' Hrest].
    assert (Hkey : ∀ x ms0, (x, ms0) ∈ rest → x ∈ rest.*1).
    { intros x ms0 H. apply list_elem_of_fmap. by exists (x, ms0). }
    destruct (decide (c' = k)) as [-> | Hne]; simpl.
    + rewrite !elem_of_cons. split.
      * intros [Heq | Hin].
        -- injection Heq as -> ->. right. split; [done |]. left. exists ms'.
           split; [by left | done].
        -- left. split; [| by right]. intros ->. by apply Hc', (Hkey k ms).
      * intros [[Hck [Heq | Hin]] | [-> [(ms0 & [Heq | Hin]%elem_of_cons & ->) | [Hk _]]]].
        -- injection Heq as -> ->. done.
        -- by right.
        -- injection Heq as ->. by left.
        -- exfalso. by apply Hc', (Hkey k ms0).
        -- exfalso. apply Hk. by left.
    + rewrite !elem_of_cons, (IH Hrest). split.
      * intros [Heq | [[Hck Hin] | [-> [(ms0 & Hin & ->) | [Hk ->]]]]].
        -- injection Heq as -> ->. left. split; [done | by left].
        -- left. split; [done | by right].
        -- right. split; [done |]. left. exists ms0. split; [by right | done].
        -- right. split; [done |]. right. split; [| done].
           intros [-> | ?]; done.
      * intros [[Hck [Heq | Hin]] | [-> [(ms0 & [Heq | Hin]%elem_of_cons & ->) | [Hk ->]]]].
        -- by left.
        -- right. left. done.
        -- injection Heq as -> ->. done.
        -- right. right. split; [done |]. left. by exists ms0.
        -- right. right. split; [done |]. right. split; [| done].
           intros ?. apply Hk. by right.
Qed.

Lemma community_nodes_snoc (done : list (string * Z)) (n : string) (k c : Z) :
  community_nodes (done ++ [(n, k)]) c
  = community_nodes done c ++ (if decide (k = c) then [n] else []).
Proof.
  unfold community_nodes. rewrite filter_app, fmap_app. f_equal.
  rewrite filter_cons. simpl. destruct (decide (k = c)); done.
Qed.

Lemma group_by_community_from_spec (p done : list (string * Z))
    (cs : list (Z * list string)) :
  NoDup cs.*1 →
  (∀ c ms, (c, ms) ∈ cs ↔ ms = community_nodes done c ∧ ms ≠ []) →
  NoDup (fold_left (λ communities '(node, comm_id),
                      communities_append comm_id node communities) p cs).*1 ∧
  ∀ c ms,
    (c, ms) ∈ fold_left (λ communities '(node, comm_id),
                           communities_append comm_id node communities) p cs
    ↔ ms = community_nodes (done ++ p) c ∧ ms ≠ [].
Proof.
  revert done cs. induction p as [| [n k] p IH]; intros done cs Hnd Hinv; simpl.
  - by rewrite app_nil_r.
  - replace (done ++ (n, k) :: p) with ((done ++ [(n, k)]) ++ p)
      by (by rewrite <- app_assoc).
    apply IH; [by apply communities_append_NoDup |].
    intros c ms. rewrite (elem_of_communities_append_iff k n cs c ms Hnd).
    rewrite community_nodes_snoc.
    assert (Hkey : k ∈ cs.*1 ↔ community_nodes done k ≠ []).
    { split.
      - intros ([k' ms0] & -> & Hin)%list_elem_of_fmap. simpl.
        by apply Hinv in Hin as [<- ?].
      - intros Hne. apply list_elem_of_fmap.
        exists (k, community_nodes done k). split; [done |]. by apply Hinv. }
    destruct (decide (k = c)) as [<- | Hne].
    + split.
      * intros [[? _] | [_ [(ms0 & Hin & ->) | [Hk ->]]]]; [done | |].
        -- apply (Hinv k ms0) in Hin as [-> _].
           split; [done |]. by intros [_ ?]%app_eq_nil.
        -- split; [| done].
           destruct (community_nodes done k) eqn:Hcn; [done |].
           exfalso. apply Hk, Hkey. by rewrite ?Hcn.
      * intros [-> _]. right. split; [done |].
        destruct (community_nodes done k) as [| m0 ms0] eqn:Hcn.
        -- right. split; [| done]. rewrite Hkey. by intros ?.
        -- left. exists (m0 :: ms0). split; [| done]. apply Hinv. by rewrite Hcn.
    + rewrite app_nil_r, Hinv. split.
      * by intros [[_ ?] | [-> _]].
      * intros ?. left. split; [by intros -> | done].
Qed.

Lemma group_by_community_members (p : list (string * Z)) (c : Z) (ms : list string) :
  (c, ms) ∈ group_by_community p ↔ ms = community_nodes p c ∧ ms ≠ [].
Proof.
  apply (group_by_community_from_spec p [] []); [apply NoDup_nil_2 |].
  intros c' ms'. split; [by intros ?%elem_of_nil | by intros [-> ?]].
Qed.

Lemma concat_communities_append (k : Z) (n : string) (cs : list (Z * list string)) :
  concat (communities_append k n cs).*2 ≡ₚ n :: concat cs.*2.
Proof.
  induction cs as [| [c' ms'] rest IH]; simpl; [done |].
  destruct (decide (c' = k)) as [-> | Hne]; simpl.
  - rewrite <- app_assoc. simpl. by rewrite <- Permutation_middle.
  - rewrite IH. by rewrite <- Permutation_middle.
Qed.

Lemma concat_group_by_community (p : list (string * Z)) :
  concat (group_by_community p).*2 ≡ₚ p.*1.
Proof.
  unfold group_by_community.
  assert (H : ∀ cs, concat (fold_left (λ communities '(node, comm_id),
                              communities_append comm_id node communities) p cs).*2
                    ≡ₚ concat cs.*2 ++ p.*1).
  { induction p as [| [n k] p IH]; intros cs; simpl; [by rewrite app_nil_r |].
    rewrite IH, concat_communities_append. simpl. by rewrite <- Permutation_middle. }
  by rewrite H.
Qed.

(** X9.  The grouping loop of [detect_fraud_clusters] loses nothing and
    invents nothing: the community ids of the result are distinct, the
    members listed under an id are exactly the nodes that the partition
    maps to it, in partition order, no listed community is empty, and all
    the member lists together are a rearrangement of the partition's nodes. *)
Theorem group_by_community_spec (p : list (string * Z)) :
  NoDup (group_by_community p).*1 ∧
  (∀ c ms, (c, ms) ∈ group_by_community p ↔ ms = community_nodes p c ∧ ms ≠ []) ∧
  concat (group_by_community p).*2 ≡ₚ p.*1.
Proof.
  split; [| split; [apply group_by_community_members | apply concat_group_by_community]].
  apply (group_by_community_from_spec p [] []); [apply NoDup_nil_2 |].
  intros c' ms'. split; [by intros ?%elem_of_nil | by intros [-> ?]].
Qed.

(** ** Which communities become clusters, and when detection raises *)

Lemma fraud_label_of_is_Some_iff (self : RiskScoringEngine) (m : string) :
  is_Some (fraud_label_of self m) ↔ m ∈ company_id <$> companies self.
Proof.
  split.
  - intros [label (row & Hin & <- & _)%fraud_label_of_Some]. by apply list_elem_of_fmap_2.
  - intros (row & -> & Hin)%list_elem_of_fmap. unfold fraud_label_of.
    destruct (iloc0_filter_is_Some (λ c, company_id c = company_id row)
                (companies self) row Hin eq_refl) as [company ->].
    by eexists.
Qed.

Lemma fraud_count_None_iff (self : RiskScoringEngine) (ms : list string) :
  fraud_count self ms = None ↔ ∃ m, m ∈ ms ∧ m ∉ company_id <$> companies self.
Proof.
  split.
  - intros Hnone.
    destruct (decide (Forall (λ m, m ∈ company_id <$> companies self) ms)) as [Hall | Hex].
    + destruct (fraud_count_is_Some self ms) as [k Hk].
      * intros m Hm. by apply (proj1 (Forall_forall _ _) Hall).
      * congruence.
    + apply not_Forall_Exists, Exists_exists in Hex; [done | apply _].
  - intros (m & Hm & Hno).
    destruct (fraud_count self ms) as [k|] eqn:Hk; [| done].
    destruct (fraud_count_Some self ms k Hk) as [_ Hall].
    exfalso. by apply Hno, fraud_label_of_is_Some_iff, Hall.
Qed.

Lemma filter_fraud_clusters_None_iff (self : RiskScoringEngine)
    (communities : list (Z * list string)) :
  filter_fraud_clusters self communities = None ↔
  ∃ c ms, (c, ms) ∈ communities ∧ (3 ≤ length (company_members ms))%nat ∧
    ∃ m, m ∈ company_members ms ∧ m ∉ company_id <$> companies self.
Proof.
  induction communities as [| [comm_id members] rest IH]; simpl.
  - split; [done |]. by intros (c & ms & ?%elem_of_nil & _).
  - fold (company_members members).
    destruct (length (company_members members) <? 3)%nat eqn:Hlen.
    + apply Nat.ltb_lt in Hlen. rewrite IH. split.
      * intros (c & ms & Hin & ?). exists c, ms. split; [by apply list_elem_of_further | done].
      * intros (c & ms & [[= -> ->] | Hin]%elem_of_cons & Hlen' & ?); [lia |].
        by exists c, ms.
    + apply Nat.ltb_ge in Hlen.
      destruct (fraud_count self (company_members members)) as [k|] eqn:Hk; simpl.
      * destruct (filter_fraud_clusters self rest) as [clusters|] eqn:Hrest; simpl.
        -- split; [done |].
           intros (c & ms & [[= -> ->] | Hin]%elem_of_cons & Hlen' & Hm).
           ++ apply fraud_count_None_iff in Hm. congruence.
           ++ assert (Hbad : Some clusters = None); [| done].
              apply IH. by exists c, ms.
        -- split; [| done]. intros _.
           destruct (proj1 IH eq_refl) as (c & ms & Hin & ?).
           exists c, ms. split; [by apply list_elem_of_further | done].
      * split; [| done]. intros _. exists comm_id, members.
        split; [apply list_elem_of_here |]. split; [done |].
        by apply fraud_count_None_iff.
Qed.

Lemma filter_fraud_clusters_complete (self : RiskScoringEngine)
    (communities : list (Z * list string)) (clusters : list (list string))
    (c : Z) (ms : list string) :
  filter_fraud_clusters self communities = Some clusters →
  (c, ms) ∈ communities →
  (3 ≤ length (company_members ms))%nat →
  (0.5 < Qnat (length (fraud_members self (company_members ms)))
         / Qnat (length (company_members ms)))%Q →
  company_members ms ∈ clusters.
Proof.
  revert clusters. induction communities as [| [comm_id members] rest IH];
    intros clusters; simpl; [by intros _ ?%elem_of_nil |].
  fold (company_members members).
  intros Hf Hin Hlen Hconc.
  destruct (length (company_members members) <? 3)%nat eqn:Hlen'.
  - apply Nat.ltb_lt in Hlen'.
    apply elem_of_cons in Hin as [[= -> ->] | Hin]; [lia | by apply IH].
  - destruct (fraud_count self (company_members members)) as [k|] eqn:Hk;
      simpl in Hf; [| done].
    destruct (filter_fraud_clusters self rest) as [clusters'|] eqn:Hrest;
      simpl in Hf; [| done].
    injection Hf as <-.
    apply elem_of_cons in Hin as [[= -> ->] | Hin].
    + destruct (fraud_count_Some self _ k Hk) as [-> _].
      apply Qgt_bool_iff in Hconc. rewrite Hconc. apply list_elem_of_here.
    + destruct (Qgt_bool _ 0.5); [apply list_elem_of_further |]; by apply IH.
Qed.

Lemma filter_fraud_clusters_sublist (self : RiskScoringEngine)
    (communities : list (Z * list string)) (clusters : list (list string)) :
  filter_fraud_clusters self communities = Some clusters →
  concat clusters `sublist_of` concat communities.*2.
Proof.
  revert clusters. induction communities as [| [comm_id members] rest IH];
    intros clusters; simpl; [by intros [= <-] |].
  fold (company_members members).
  destruct (length (company_members members) <? 3)%nat.
  - intros H. by apply sublist_inserts_l, IH.
  - destruct (fraud_count self (company_members members)) as [k|]; simpl; [| done].
    destruct (filter_fraud_clusters self rest) as [clusters'|]; simpl; [| done].
    intros [= <-]. destruct (Qgt_bool _ 0.5); simpl.
    + apply sublist_app; [apply sublist_filter | by apply IH].
    + by apply sublist_inserts_l, IH.
Qed.

(** X10.  [detect_fraud_clusters] raises exactly when some community has at
    least three ids with the company prefix and one of them is not in the
    companies table.  When it returns, the clusters are exactly the company
    members of the communities that have at least three such members and a
    fraud concentration above 0.5: none is left out. *)
Theorem detect_fraud_clusters_exact (best_partition : Graph → list (string * Z))
    (self : RiskScoringEngine) :
  (detect_fraud_clusters best_partition self = None ↔
   ∃ c, (3 ≤ length (company_members
                       (community_nodes (best_partition (graph self)) c)))%nat ∧
     ∃ m, m ∈ company_members (community_nodes (best_partition (graph self)) c) ∧
          m ∉ company_id <$> companies self) ∧
  (∀ clusters, detect_fraud_clusters best_partition self = Some clusters →
     ∀ cluster, cluster ∈ clusters ↔
       ∃ c, cluster = company_members
                        (community_nodes (best_partition (graph self)) c) ∧
            (3 ≤ length cluster)%nat ∧
            (0.5 < Qnat (length (fraud_members self cluster))
                   / Qnat (length cluster))%Q).
Proof.
  unfold detect_fraud_clusters. split.
  - rewrite filter_fraud_clusters_None_iff. split.
    + intros (c & ms & [-> _]%group_by_community_members & Hlen & Hm). by exists c.
    + intros (c & Hlen & Hm).
      exists c, (community_nodes (best_partition (graph self)) c).
      split; [| done]. apply group_by_community_members. split; [done |].
      intros Hnil. rewrite Hnil in Hlen. simpl in Hlen. lia.
  - intros clusters Hdet cluster. split.
    + intros Hin.
      destruct (filter_fraud_clusters_sound self _ clusters Hdet cluster Hin)
        as (c & ms & [-> _]%group_by_community_members & Hfilter & Hlen & k & Hk & Hconc).
      exists c. split; [done |]. split; [done |].
      by destruct (fraud_count_Some self cluster k Hk) as [<- _].
    + intros (c & -> & Hlen & Hconc).
      apply (filter_fraud_clusters_complete self _ clusters c _ Hdet); [| done | done].
      apply group_by_community_members. split; [done |].
      intros Hnil. rewrite Hnil in Hlen. simpl in Hlen. lia.
Qed.

Lemma detect_fraud_clusters_exact_witness :
  ∃ self, __init__ cluster_data = Some self ∧
    detect_fraud_clusters stray_partition self = None ∧
    ∃ clusters, detect_fraud_clusters cluster_partition self = Some clusters ∧
      company_members (community_nodes (cluster_partition (graph self)) 0) ∈ clusters.
Proof.
  eexists. split; [reflexivity |].
  match goal with |- detect_fraud_clusters _ ?s = _ ∧ _ => pose (self := s) end.
  split.
  - apply (proj1 (detect_fraud_clusters_exact stray_partition self)).
    exists 0%Z. split; [vm_compute; lia |]. exists "COMP_9".
    split; [vm_compute; do 2 apply list_elem_of_further; apply list_elem_of_here |].
    apply (bool_decide_unpack _). by vm_compute.
  - eexists. split; [vm_compute; reflexivity |].
    apply (proj2 (detect_fraud_clusters_exact cluster_partition self) _ eq_refl).
    exists 0%Z. split; [done |]. split; [vm_compute; lia | by vm_compute].
Defined.

(** X11.  When the partition lists each node once, no id occurs twice in
    the clusters returned by [detect_fraud_clusters], neither within a
    cluster nor in two clusters, and every member is a node of the
    partition. *)
Theorem detect_fraud_clusters_disjoint (best_partition : Graph → list (string * Z))
    (self : RiskScoringEngine) (clusters : list (list string)) :
  detect_fraud_clusters best_partition self = Some clusters →
  NoDup (best_partition (graph self)).*1 →
  NoDup (concat clusters) ∧
  ∀ m, m ∈ concat clusters → m ∈ (best_partition (graph self)).*1.
Proof.
  unfold detect_fraud_clusters. intros Hdet Hnd.
  pose proof (filter_fraud_clusters_sublist self _ clusters Hdet) as Hsub.
  pose proof (concat_group_by_community (best_partition (graph self))) as Hperm.
  split.
  - eapply sublist_NoDup; [| exact Hsub]. by rewrite Hperm.
  - intros m Hm. rewrite <- Hperm. by apply (sublist_subseteq _ _ Hsub).
Qed.

Lemma detect_fraud_clusters_disjoint_witness :
  ∃ self, __init__ cluster_data = Some self ∧
    ∃ clusters, detect_fraud_clusters cluster_partition self = Some clusters ∧
      NoDup (concat clusters).
Proof.
  eexists. split; [reflexivity |].
  match goal with |- ∃ clusters, detect_fraud_clusters _ ?s = _ ∧ _ => pose (self := s) end.
  eexists. split; [vm_compute; reflexivity |].
  match goal with |- NoDup (concat ?cl) =>
    refine (proj1 (detect_fraud_clusters_disjoint cluster_partition self cl _ _))
  end.
  - vm_compute. reflexivity.
  - apply (bool_decide_unpack _). by vm_compute.
Defined.

(** ** Companies sharing a director *)

Lemma check_shared_directors_eq (self : RiskScoringEngine) (cid : string) :
  _check_shared_directors self cid
  == Qmin (Qnat (size (shared_companies self cid (director_ids self cid))) / 10.0) 1.0.
Proof.
  unfold _check_shared_directors, director_ids.
  destruct (length _ =? 0)%nat eqn:Hlen; [| reflexivity].
  apply Nat.eqb_eq, nil_length_inv in Hlen. rewrite Hlen. reflexivity.
Qed.

Lemma Qnat_pos_iff (n : nat) : (0 < Qnat n)%Q ↔ (0 < n)%nat.
Proof. unfold Qnat, Qlt. simpl. lia. Qed.

Lemma Qnat_ge_10_iff (n : nat) : (10 <= Qnat n)%Q ↔ (10 ≤ n)%nat.
Proof. unfold Qnat, Qle. simpl. lia. Qed.

Lemma gset_size_pos_iff (X : gset string) : (0 < size X)%nat ↔ X ≠ ∅.
Proof.
  rewrite <- (leibniz_equiv_iff X ∅), <- size_non_empty_iff. lia.
Qed.

(** X12.  Sharing a director is mutual: a company is in the set built for
    another exactly when the other is in the set built for it.  The factor
    lies between 0 and 1, is positive exactly when that set is not empty,
    so a company whose directors direct nothing else scores 0, and reaches
    1 exactly from ten companies on. *)
Theorem shared_directors_mutual (self : RiskScoringEngine) (c c' : string) :
  (c' ∈ shared_companies self c (director_ids self c)
   ↔ c ∈ shared_companies self c' (director_ids self c')) ∧
  (0 <= _check_shared_directors self c <= 1)%Q ∧
  ((0 < _check_shared_directors self c)%Q
   ↔ shared_companies self c (director_ids self c) ≠ ∅) ∧
  (_check_shared_directors self c == 1
   ↔ (10 ≤ size (shared_companies self c (director_ids self c)))%nat).
Proof.
  split.
  { unfold director_ids. rewrite !elem_of_shared_companies. split.
    - intros (Hne & d & Hd & Hd'). split; [done |]. by exists d.
    - intros (Hne & d & Hd & Hd'). split; [done |]. by exists d. }
  rewrite (check_shared_directors_eq self c).
  set (others := shared_companies self c (director_ids self c)).
  pose proof (Qnat_nonneg (size others)) as Hn.
  pose proof (Qnat_pos_iff (size others)) as Hpos.
  pose proof (Qnat_ge_10_iff (size others)) as Hten.
  set (x := Qnat (size others)) in *.
  assert (Hdiv : x / 10.0 == x * 0.1) by (unfold Qdiv; reflexivity || field).
  pose proof (gset_size_pos_iff others) as Hsz.
  destruct (Q.min_spec (x / 10.0) 1.0) as [[Hlt ->] | [Hle ->]]; rewrite Hdiv in *.
  - split; [split; lra |]. split.
    + rewrite <- Hsz, <- Hpos. split; intros; lra.
    + split.
      * intros Heq. lra.
      * intros H10%Hten. lra.
  - split; [split; lra |]. split.
    + rewrite <- Hsz, <- Hpos. split; intros; lra.
    + split.
      * intros _. apply Hten. lra.
      * intros _. lra.
Qed.

(** * Properties of the loaders and of the API *)

(** ** Classifying an id by its prefix *)

Lemma prefix_String_inv (a : Ascii.ascii) (s id : string) :
  String.prefix (String a s) id = true →
  ∃ t, id = String a t ∧ String.prefix s t = true.
Proof.
  destruct id as [| b t]; simpl; [done |].
  destruct (Ascii.ascii_dec a b) as [-> | Hne]; [| done].
  intros H. by exists t.
Qed.

Lemma prefixes_exclusive (id : string) :
  (String.prefix "COMP_" id = true → String.prefix "DIR_" id = false
     ∧ String.prefix "TEND_" id = false ∧ String.prefix "DEPT_" id = false) ∧
  (String.prefix "DIR_" id = true → String.prefix "COMP_" id = false
     ∧ String.prefix "TEND_" id = false ∧ String.prefix "DEPT_" id = false) ∧
  (String.prefix "TEND_" id = true → String.prefix "COMP_" id = false
     ∧ String.prefix "DIR_" id = false ∧ String.prefix "DEPT_" id = false) ∧
  (String.prefix "DEPT_" id = true → String.prefix "COMP_" id = false
     ∧ String.prefix "DIR_" id = false ∧ String.prefix "TEND_" id = false).
Proof.
  split; [| split; [| split]]; intros (t & -> & H)%prefix_String_inv;
    (split; [| split]); try reflexivity;
    apply prefix_String_inv in H as (t' & -> & H'); reflexivity.
Qed.

(** X13.  The four prefixes exclude one another, so each type name is
    returned by [_get_node_type] exactly for the ids with its prefix.  The
    API's [_get_entity_type] agrees with it on these ids; an id with none of
    the prefixes is Unknown to the loaders and a Company to the API. *)
Theorem node_type_by_prefix (entity_id : string) :
  (_get_node_type entity_id = "Company" ↔ String.prefix "COMP_" entity_id = true) ∧
  (_get_node_type entity_id = "Director" ↔ String.prefix "DIR_" entity_id = true) ∧
  (_get_node_type entity_id = "Tender" ↔ String.prefix "TEND_" entity_id = true) ∧
  (_get_node_type entity_id = "Department" ↔ String.prefix "DEPT_" entity_id = true) ∧
  (_get_node_type entity_id ≠ "Unknown" →
     EntityType_value (_get_entity_type entity_id) = _get_node_type entity_id) ∧
  (_get_node_type entity_id = "Unknown" → _get_entity_type entity_id = COMPANY).
Proof.
  destruct (prefixes_exclusive entity_id) as (Hc & Hd & Ht & Hp).
  unfold _get_node_type, _get_entity_type.
  destruct (String.prefix "COMP_" entity_id) eqn:Ec.
  { destruct (Hc eq_refl) as (-> & -> & ->). repeat split; done. }
  destruct (String.prefix "DIR_" entity_id) eqn:Ed.
  { destruct (Hd eq_refl) as (_ & -> & ->). repeat split; done. }
  destruct (String.prefix "TEND_" entity_id) eqn:Et.
  { destruct (Ht eq_refl) as (_ & _ & ->). repeat split; done. }
  destruct (String.prefix "DEPT_" entity_id) eqn:Ep; repeat split; done.
Qed.

Lemma node_type_by_prefix_witness :
  EntityType_value (_get_entity_type "DEPT_07") = _get_node_type "DEPT_07" ∧
  _get_entity_type "X_1" = COMPANY.
Proof.
  split.
  - apply (proj1 (proj2 (proj2 (proj2 (proj2 (node_type_by_prefix "DEPT_07")))))).
    by vm_compute.
  - apply (proj2 (proj2 (proj2 (proj2 (proj2 (node_type_by_prefix "X_1")))))).
    by vm_compute.
Defined.

(** ** Endpoints *)

Lemma load_data_Some (csv : Data) :
  ∃ risk_engine risk_scores,
    __init__ csv = Some risk_engine ∧
    calculate_all_risk_scores risk_engine = Some risk_scores ∧
    load_data csv
    = Some ({| cache_companies := data_companies csv;
               cache_directors := data_directors csv;
               cache_tenders := data_tenders csv;
               cache_relationships := data_relationships csv;
               cache_risk_scores := risk_scores |}, risk_engine).
Proof.
  unfold load_data.
  destruct (__init__ csv) as [risk_engine|] eqn:Hinit; [| done]. simpl.
  destruct (calculate_all_risk_scores_rows risk_engine) as (rows & Hrows & _).
  rewrite Hrows. simpl. by exists risk_engine, rows.
Qed.

(** What [load_data] leaves in the module globals. *)
Lemma load_data_inv (csv : Data) (data_cache : DataCache) (risk_engine : RiskScoringEngine) :
  load_data csv = Some (data_cache, risk_engine) →
  __init__ csv = Some risk_engine ∧
  cache_companies data_cache = companies risk_engine ∧
  cache_tenders data_cache = tenders risk_engine ∧
  cache_relationships data_cache = relationships risk_engine ∧
  cache_relationships data_cache = data_relationships csv ∧
  calculate_all_risk_scores risk_engine = Some (cache_risk_scores data_cache).
Proof.
  destruct (load_data_Some csv) as (re & rows & Hinit & Hrows & ->).
  intros [= <- <-]. simpl. injection Hinit as <-. done.
Qed.

Lemma filter_company_nil_iff (cs : list Company) (cid : string) :
  filter (λ c, company_id c = cid) cs = [] ↔ cid ∉ company_id <$> cs.
Proof.
  split.
  - intros Hnil (row & -> & Hin)%list_elem_of_fmap.
    assert (H : row ∈ filter (λ c, company_id c = company_id row) cs)
      by (by apply list_elem_of_filter).
    rewrite Hnil in H. by apply elem_of_nil in H.
  - intros Hno. destruct (filter _ cs) as [| row rest] eqn:Hf; [done |].
    exfalso. apply Hno.
    assert (H : row ∈ filter (λ c, company_id c = cid) cs)
      by (rewrite Hf; apply list_elem_of_here).
    apply list_elem_of_filter in H as [<- Hin]. by apply list_elem_of_fmap_2.
Qed.

Lemma other_end_joined (rels : list Relationship) (entity_id : string)
    (rel : Relationship) :
  rel ∈ connected_rows rels entity_id → joined rels entity_id (other_end entity_id rel).
Proof.
  unfold connected_rows, other_end. intros [Hends Hin]%list_elem_of_filter.
  exists rel. split; [done |].
  destruct (decide (source_id rel = entity_id)) as [Hs | Hs]; [by left |].
  right. destruct Hends as [? | Ht]; done.
Qed.



Lemma is_high_risk_score (self : RiskScoringEngine) (rows : list RiskScoreRow)
    (other_id : string) :
  calculate_all_risk_scores self = Some rows →
  is_high_risk rows other_id = true →
  ∃ score conf inds,
    calculate_company_risk_score self other_id = Some (score, conf, inds) ∧
    (0.7 <= score)%Q.
Proof.
  intros Hrows Hhigh.
  destruct (calculate_all_risk_scores_rows self) as (rows' & Hrows' & _ & Hall).
  rewrite Hrows in Hrows'. injection Hrows' as <-.
  unfold is_high_risk in Hhigh.
  destruct (filter _ rows) as [| first rest] eqn:Hf; [done |].
  apply bool_decide_eq_true in Hhigh.
  assert (Hfirst : first ∈ filter (λ row, row_company_id row = other_id) rows)
    by (rewrite Hf; apply list_elem_of_here).
  apply list_elem_of_filter in Hfirst as [<- Hin].
  destruct (proj1 (Forall_forall _ _) Hall first Hin)
    as (inds & Hcalc & _ & _ & Hcat & _).
  exists (row_risk_score first), (row_confidence_score first), inds.
  split; [done |]. by apply Hcat.
Qed.

(** X15.  After [load_data], the summary endpoint of api_neo4j.py answers
    400 for an id without the company prefix, 404 for a prefixed id that is
    not in the companies table, and otherwise returns.  The summary has the
    engine's score and indicators, one finding per indicator, the
    recommendation of the score's category, and at most ten suspicious
    entities; each of them has the company prefix, is joined to the company
    by a relationship row and has a risk score of at least 0.7. *)
Theorem investigation_summary_neo4j_spec (csv : Data) (entity_id : string) :
  ∃ data_cache risk_engine,
    load_data csv = Some (data_cache, risk_engine) ∧
    (String.prefix "COMP_" entity_id = false →
       generate_investigation_summary_neo4j data_cache risk_engine entity_id
       = Raise (HTTPException 400 "Only company investigations supported")) ∧
    (String.prefix "COMP_" entity_id = true →
     entity_id ∉ company_id <$> data_companies csv →
       generate_investigation_summary_neo4j data_cache risk_engine entity_id
       = Raise (HTTPException 404 "Company not found")) ∧
    (String.prefix "COMP_" entity_id = true →
     entity_id ∈ company_id <$> data_companies csv →
       ∃ summary,
         generate_investigation_summary_neo4j data_cache risk_engine entity_id
         = Return summary ∧
         calculate_company_risk_score risk_engine entity_id
         = Some (is_risk_score summary, _calculate_confidence risk_engine entity_id,
                 is_risk_indicators summary) ∧
         is_recommendation summary
         = recommendation_for (get_risk_category (is_risk_score summary)) ∧
         length (is_key_findings summary) = length (is_risk_indicators summary) ∧
         (length (is_connected_suspicious_entities summary) ≤ 10)%nat ∧
         ∀ other, other ∈ is_connected_suspicious_entities summary →
           String.prefix "COMP_" other = true ∧
           joined (data_relationships csv) entity_id other ∧
           ∃ score conf inds,
             calculate_company_risk_score risk_engine other = Some (score, conf, inds) ∧
             (0.7 <= score)%Q).
Proof.
  destruct (load_data_Some csv) as (risk_engine & rows & Hinit & Hrows & Hload).
  eexists _, risk_engine. split; [exact Hload |].
  unfold generate_investigation_summary_neo4j, investigation_summary. simpl.
  split; [by intros -> |]. split.
  - intros -> Hno. simpl. apply filter_company_nil_iff in Hno. by rewrite Hno.
  - intros -> Hin. simpl.
    destruct (decide (filter _ _ = [])) as [Hnil | _].
    { by apply filter_company_nil_iff in Hnil. }
    assert (Hcs : companies risk_engine = data_companies csv)
      by (by injection Hinit as <-).
    destruct (calculate_company_risk_score_Some risk_engine entity_id)
      as (shell & score & conf & inds & _ & Hcalc & _ & Hconf); [by rewrite Hcs |].
    rewrite Hcalc. simpl. eexists. split; [reflexivity |]. simpl.
    split; [by rewrite Hconf |]. split; [done |].
    split; [by rewrite length_fmap |]. split; [rewrite length_take; lia |].
    intros other Hother%(subseteq_take 10).
    apply list_elem_of_filter in Hother as [[Hprefix Hhigh] Hother].
    apply list_elem_of_fmap in Hother as (rel & -> & Hrel).
    split; [done |]. split; [by apply other_end_joined |].
    by apply (is_high_risk_score risk_engine rows).
Qed.

Lemma investigation_summary_neo4j_spec_witness :
  ∃ data_cache risk_engine summary,
    load_data company_link_data = Some (data_cache, risk_engine) ∧
    generate_investigation_summary_neo4j data_cache risk_engine "DIR_X"
    = Raise (HTTPException 400 "Only company investigations supported") ∧
    generate_investigation_summary_neo4j data_cache risk_engine "COMP_Z"
    = Raise (HTTPException 404 "Company not found") ∧
    generate_investigation_summary_neo4j data_cache risk_engine "COMP_A"
    = Return summary.
Proof.
  destruct (investigation_summary_neo4j_spec company_link_data "DIR_X")
    as (dc & re & Hload & H400 & _).
  destruct (investigation_summary_neo4j_spec company_link_data "COMP_Z")
    as (dc1 & re1 & Hload1 & _ & H404 & _).
  destruct (investigation_summary_neo4j_spec company_link_data "COMP_A")
    as (dc2 & re2 & Hload2 & _ & _ & Hok).
  rewrite Hload in Hload1, Hload2.
  injection Hload1 as <- <-. injection Hload2 as <- <-.
  destruct Hok as (summary & Hret & _); [by vm_compute | |].
  { vm_compute. apply list_elem_of_here. }
  exists dc, re, summary. split; [done |].
  split; [apply H400; by vm_compute |]. split; [| done].
  apply H404; [by vm_compute |]. apply (bool_decide_unpack _). by vm_compute.
Defined.

Lemma suspicious_entities_unbound_raises (entity_id : string)
    (connected : list Relationship) :
  (∃ rel, rel ∈ connected ∧ String.prefix "COMP_" (other_end entity_id rel) = true) →
  suspicious_entities_unbound entity_id connected = Raise (NameError "risk_scores").
Proof.
  induction connected as [| rel rest IH]; simpl.
  - by intros (rel & ?%elem_of_nil & _).
  - intros (rel' & Hin & Hp).
    destruct (String.prefix "COMP_" (other_end entity_id rel)) eqn:Hrel; [done |].
    apply IH. exists rel'. split; [| done].
    apply elem_of_cons in Hin as [-> | Hin]; [congruence | done].
Qed.

Lemma suspicious_entities_unbound_returns (rows : list RiskScoreRow) (entity_id : string)
    (connected : list Relationship) :
  (∀ rel, rel ∈ connected → String.prefix "COMP_" (other_end entity_id rel) = false) →
  suspicious_entities_unbound entity_id connected = Return [] ∧
  suspicious_entities rows entity_id connected = [].
Proof.
  unfold suspicious_entities.
  induction connected as [| rel rest IH]; simpl; [done |]. intros Hall.
  rewrite (Hall rel (list_elem_of_here _ _)).
  destruct IH as [-> IH2].
  { intros rel' Hin. by apply Hall, list_elem_of_further. }
  split; [done |]. rewrite filter_cons, decide_False; [exact IH2 |].
  rewrite (Hall rel (list_elem_of_here _ _)). by intros [? _].
Qed.

(** X16.  In api.py the summary endpoint reads the name [risk_scores], which
    is bound nowhere.  For a company of the table it therefore raises
    NameError exactly when some relationship row ties the company to an id
    with the company prefix; when no row does, it returns what the endpoint
    of api_neo4j.py returns, with no suspicious entity. *)
Theorem investigation_summary_unbound_name (csv : Data) (entity_id : string) :
  ∃ data_cache risk_engine,
    load_data csv = Some (data_cache, risk_engine) ∧
    (String.prefix "COMP_" entity_id = true →
     entity_id ∈ company_id <$> data_companies csv →
     ((∃ rel, rel ∈ connected_rows (data_relationships csv) entity_id ∧
              String.prefix "COMP_" (other_end entity_id rel) = true) →
        generate_investigation_summary data_cache risk_engine entity_id
        = Raise (NameError "risk_scores")) ∧
     ((∀ rel, rel ∈ connected_rows (data_relationships csv) entity_id →
              String.prefix "COMP_" (other_end entity_id rel) = false) →
        ∃ summary,
          generate_investigation_summary data_cache risk_engine entity_id
          = Return summary ∧
          generate_investigation_summary_neo4j data_cache risk_engine entity_id
          = Return summary ∧
          is_connected_suspicious_entities summary = [])).
Proof.
  destruct (load_data_Some csv) as (risk_engine & rows & Hinit & Hrows & Hload).
  eexists _, risk_engine. split; [exact Hload |].
  intros Hprefix Hin.
  unfold generate_investigation_summary, generate_investigation_summary_neo4j,
    investigation_summary. simpl. rewrite Hprefix. simpl.
  destruct (decide (filter _ _ = [])) as [Hnil | _].
  { by apply filter_company_nil_iff in Hnil. }
  assert (Hcs : companies risk_engine = data_companies csv)
    by (by injection Hinit as <-).
  destruct (calculate_company_risk_score_Some risk_engine entity_id)
    as (shell & score & conf & inds & _ & Hcalc & _); [by rewrite Hcs |].
  rewrite Hcalc. simpl. split.
  - intros Hex. by rewrite (suspicious_entities_unbound_raises entity_id _ Hex).
  - intros Hall.
    destruct (suspicious_entities_unbound_returns rows entity_id _ Hall) as [-> ->].
    simpl. eexists. split; [reflexivity |]. split; reflexivity.
Qed.

Lemma investigation_summary_unbound_name_witness :
  ∃ data_cache risk_engine summary,
    load_data company_link_data = Some (data_cache, risk_engine) ∧
    generate_investigation_summary data_cache risk_engine "COMP_A"
    = Raise (NameError "risk_scores") ∧
    (∃ data_cache' risk_engine',
       load_data isolated_data = Some (data_cache', risk_engine') ∧
       generate_investigation_summary data_cache' risk_engine' "COMP_B"
       = Return summary).
Proof.
  destruct (investigation_summary_unbound_name company_link_data "COMP_A")
    as (dc & re & Hload & Hraise).
  destruct (investigation_summary_unbound_name isolated_data "COMP_B")
    as (dc' & re' & Hload' & Hret).
  destruct Hraise as [Hraise _]; [by vm_compute | |].
  { vm_compute. apply list_elem_of_here. }
  destruct Hret as [_ Hret]; [by vm_compute | |].
  { vm_compute. apply list_elem_of_further, list_elem_of_here. }
  destruct Hret as (summary & Hsum & _).
  { intros rel Hrel. vm_compute in Hrel.
    apply list_elem_of_singleton in Hrel as ->. by vm_compute. }
  exists dc, re, summary. split; [done |]. split.
  - apply Hraise. exists (mkRel "COMP_B" "COMP_A" "PARTNER_OF"). split; [| by vm_compute].
    apply list_elem_of_filter. split; [by right |].
    do 2 apply list_elem_of_further. apply list_elem_of_here.
  - by exists dc', re'.
Defined.

(** X17.  [get_fraud_clusters] raises when the detector raises; otherwise
    "total_clusters" is the number of entries under "clusters", the entries
    are numbered from 0 in the detector's order, each reports the size of
    its cluster, at least 3, and lists its first ten members: between three
    and ten ids, all with the company prefix. *)
Theorem get_fraud_clusters_spec (risk_engine : RiskScoringEngine)
    (best_partition : Graph → list (string * Z)) :
  (detect_fraud_clusters best_partition risk_engine = None →
     get_fraud_clusters risk_engine best_partition = Raise IndexError) ∧
  (∀ infos total,
     get_fraud_clusters risk_engine best_partition = Return (infos, total) →
     total = length infos ∧
     ∃ clusters,
       detect_fraud_clusters best_partition risk_engine = Some clusters ∧
       ∀ i info, infos !! i = Some info →
         ci_cluster_id info = i ∧
         ∃ cluster, clusters !! i = Some cluster ∧
           ci_size info = length cluster ∧
           ci_members info = take 10 cluster ∧
           (3 ≤ ci_size info)%nat ∧
           (3 ≤ length (ci_members info) ≤ 10)%nat ∧
           ∀ m, m ∈ ci_members info → String.prefix "COMP_" m = true).
Proof.
  unfold get_fraud_clusters. split; [by intros -> |].
  intros infos total.
  destruct (detect_fraud_clusters best_partition risk_engine) as [clusters|] eqn:Hdet;
    simpl; [| done].
  intros [= <- <-]. split; [by rewrite length_imap |].
  exists clusters. split; [done |]. intros i info Hinfo.
  rewrite list_lookup_imap in Hinfo.
  apply fmap_Some in Hinfo as (cluster & Hcluster & ->). simpl.
  split; [done |]. exists cluster. split; [done |]. split; [done |]. split; [done |].
  unfold detect_fraud_clusters in Hdet.
  destruct (filter_fraud_clusters_sound risk_engine _ clusters Hdet cluster)
    as (c & ms & _ & Hfilter & Hlen & _).
  { by apply list_elem_of_lookup_2 in Hcluster. }
  split; [done |]. split; [rewrite length_take; lia |].
  intros m Hm%(subseteq_take 10). rewrite Hfilter in Hm.
  by apply list_elem_of_filter in Hm as [? _].
Qed.

Lemma get_fraud_clusters_spec_witness :
  ∃ self infos total, __init__ cluster_data = Some self ∧
    get_fraud_clusters self stray_partition = Raise IndexError ∧
    get_fraud_clusters self cluster_partition = Return (infos, total) ∧
    total = length infos.
Proof.
  eexists _, _, _. split; [reflexivity |].
  match goal with |- get_fraud_clusters ?s _ = _ ∧ _ => pose (self := s) end.
  split; [| split].
  - apply (proj1 (get_fraud_clusters_spec self stray_partition)). by vm_compute.
  - vm_compute. reflexivity.
  - apply (proj2 (get_fraud_clusters_spec self cluster_partition)). by vm_compute.
Defined.

(** * Properties of the Neo4j cluster loop *)

Lemma merge_sort_perm_eq (a b : list string) :
  a ≡ₚ b → merge_sort String.le a = merge_sort String.le b.
Proof.
  intros Hab. apply (Sorted_unique String.le).
  - apply Sorted_merge_sort, _.
  - apply Sorted_merge_sort, _.
  - by rewrite !merge_sort_Permutation.
Qed.

Lemma merge_sort_eq_perm (a b : list string) :
  merge_sort String.le a = merge_sort String.le b → a ≡ₚ b.
Proof.
  intros Heq. rewrite <- (merge_sort_Permutation String.le a), Heq.
  apply merge_sort_Permutation.
Qed.

Lemma neo4j_cluster_fold (records done : list (string * list string))
    (clusters : list (list string)) (seen : gset (list string)) :
  (∀ k, k ∈ seen ↔ k ∈ merge_sort String.le <$> clusters) →
  NoDup (merge_sort String.le <$> clusters) →
  clusters `sublist_of` (λ r, r.1 :: r.2) <$> done →
  (∀ r, r ∈ done → merge_sort String.le (r.1 :: r.2) ∈ seen) →
  let out := (fold_left neo4j_cluster_step records (clusters, seen)).1 in
  NoDup (merge_sort String.le <$> out) ∧
  out `sublist_of` (λ r, r.1 :: r.2) <$> (done ++ records) ∧
  (∀ r, r ∈ done ++ records →
        merge_sort String.le (r.1 :: r.2) ∈ merge_sort String.le <$> out).
Proof.
  revert done clusters seen.
  induction records as [| record records IH]; intros done clusters seen Hseen Hnd Hsub Hdone;
    simpl.
  - rewrite app_nil_r. split; [done |]. split; [done |].
    intros r Hr. by apply Hseen, Hdone.
  - replace (done ++ record :: records) with ((done ++ [record]) ++ records)
      by (by rewrite <- app_assoc).
    unfold neo4j_cluster_step at 2.
    destruct (decide (merge_sort String.le (record.1 :: record.2) ∉ seen)) as [Hnew | Hold].
    + apply IH.
      * intros k. rewrite elem_of_union, elem_of_singleton, fmap_app, elem_of_app.
        simpl. rewrite list_elem_of_singleton, Hseen. tauto.
      * rewrite fmap_app. apply NoDup_app. split; [done |]. split.
        -- intros k Hk ->%list_elem_of_singleton. by apply Hnew, Hseen.
        -- apply NoDup_singleton.
      * rewrite fmap_app. by apply sublist_app.
      * intros r [Hr | ->%list_elem_of_singleton]%elem_of_app.
        -- apply elem_of_union. right. by apply Hdone.
        -- apply elem_of_union. left. by apply elem_of_singleton.
    + apply IH; [done | done | |].
      * rewrite fmap_app. rewrite <- (app_nil_r clusters).
        apply sublist_app; [done | apply sublist_nil_l].
      * intros r [Hr | ->%list_elem_of_singleton]%elem_of_app; [by apply Hdone |].
        by apply dec_stable.
Qed.

(** X18.  The clusters kept by [Neo4jConnector.detect_fraud_clusters] are
    records of the query, seed first, in query order; no two of them have
    the same members up to order; and every record of the query has the
    same members, up to order, as some kept cluster. *)
Theorem neo4j_detect_fraud_clusters_spec (result : list (string * list string)) :
  neo4j_detect_fraud_clusters result `sublist_of` (λ r, r.1 :: r.2) <$> result ∧
  (∀ i j a b,
     neo4j_detect_fraud_clusters result !! i = Some a →
     neo4j_detect_fraud_clusters result !! j = Some b →
     a ≡ₚ b → i = j) ∧
  (∀ r, r ∈ result →
     ∃ cluster, cluster ∈ neo4j_detect_fraud_clusters result ∧ cluster ≡ₚ r.1 :: r.2).
Proof.
  unfold neo4j_detect_fraud_clusters.
  destruct (neo4j_cluster_fold result [] [] ∅) as (Hnd & Hsub & Hall).
  - intros k. simpl. rewrite elem_of_nil. split; [by intros ?%not_elem_of_empty | done].
  - apply NoDup_nil_2.
  - done.
  - intros r Hr. by apply elem_of_nil in Hr.
  - simpl in *. split; [done |]. split.
    + intros i j a b Ha Hb Hab.
      apply (NoDup_lookup _ i j (merge_sort String.le a) Hnd).
      * by rewrite list_lookup_fmap, Ha.
      * rewrite list_lookup_fmap, Hb. simpl. f_equal. symmetry.
        by apply merge_sort_perm_eq.
    + intros r Hr. destruct (proj1 (list_elem_of_fmap _ _ _) (Hall r Hr))
        as (cluster & Heq & Hin).
      exists cluster. split; [done |]. symmetry. by apply merge_sort_eq_perm.
Qed.

Lemma neo4j_detect_fraud_clusters_spec_witness :
  ∃ cluster,
    cluster ∈ neo4j_detect_fraud_clusters
                [("COMP_1", ["COMP_2"; "COMP_3"]); ("COMP_2", ["COMP_3"; "COMP_1"])] ∧
    cluster ≡ₚ ["COMP_2"; "COMP_3"; "COMP_1"].
Proof.
  apply (proj2 (proj2 (neo4j_detect_fraud_clusters_spec
           [("COMP_1", ["COMP_2"; "COMP_3"]); ("COMP_2", ["COMP_3"; "COMP_1"])]))
           ("COMP_2", ["COMP_3"; "COMP_1"])).
  apply list_elem_of_further, list_elem_of_here.
Defined.

(** * Properties of the graph data processor *)

Lemma node_to_idx_from_lookup (nodes : list string) (start : nat)
    (acc : gmap string nat) (n : string) (idx : nat) :
  node_to_idx_from start nodes acc !! n = Some idx →
  (acc !! n = Some idx ∧ n ∉ nodes) ∨
  ((start ≤ idx)%nat ∧ nodes !! (idx - start)%nat = Some n).
Proof.
  unfold node_to_idx_from. revert start acc.
  induction nodes as [| x nodes IH]; intros start acc; simpl.
  - intros H. left. split; [done | apply not_elem_of_nil].
  - intros [[Hacc Hno] | [Hle Hidx]]%IH.
    + destruct (decide (x = n)) as [-> | Hne].
      * rewrite lookup_insert_eq in Hacc. injection Hacc as <-.
        right. split; [lia |]. by rewrite Nat.sub_diag.
      * rewrite lookup_insert_ne in Hacc by done. left. split; [done |].
        rewrite elem_of_cons. intros [-> | ?]; done.
    + right. split; [lia |].
      replace (idx - start)%nat with (S (idx - S start)) by lia. done.
Qed.

Lemma node_to_idx_from_is_Some (nodes : list string) (start : nat)
    (acc : gmap string nat) (n : string) :
  is_Some (node_to_idx_from start nodes acc !! n) ↔ is_Some (acc !! n) ∨ n ∈ nodes.
Proof.
  unfold node_to_idx_from. revert start acc.
  induction nodes as [| x nodes IH]; intros start acc; simpl.
  - rewrite elem_of_nil. tauto.
  - rewrite IH, lookup_insert_is_Some, elem_of_cons.
    destruct (decide (x = n)) as [-> | Hne]; [tauto |].
    split; [intros [[? | [_ ?]] | ?]; tauto |].
    intros [? | [-> | ?]]; [| done |]; tauto.
Qed.

Lemma node_to_idx_lookup (data : Data) (n : string) (idx : nat) :
  node_to_idx data !! n = Some idx → all_nodes data !! idx = Some n.
Proof.
  unfold node_to_idx.
  intros [[H _] | [_ H]]%node_to_idx_from_lookup; [by rewrite lookup_empty in H |].
  by rewrite Nat.sub_0_r in H.
Qed.

Lemma node_to_idx_is_Some (data : Data) (n : string) :
  is_Some (node_to_idx data !! n) ↔ n ∈ all_nodes data.
Proof.
  unfold node_to_idx. rewrite node_to_idx_from_is_Some, lookup_empty.
  split; [by intros [[? ?] | ?] | by right].
Qed.

Lemma build_edge_index_from (m : gmap string nat) (rels : list Relationship)
    (acc : list (nat * nat)) :
  (∀ a b, (a, b) ∈ fold_left (edge_index_step m) rels acc ↔
     (a, b) ∈ acc ∨
     ∃ rel, rel ∈ rels ∧
       ((m !! source_id rel = Some a ∧ m !! target_id rel = Some b) ∨
        (m !! source_id rel = Some b ∧ m !! target_id rel = Some a))) ∧
  length (fold_left (edge_index_step m) rels acc)
  = (length acc
     + 2 * length (filter (λ rel, is_Some (m !! source_id rel)
                                  ∧ is_Some (m !! target_id rel)) rels))%nat.
Proof.
  revert acc. induction rels as [| rel rels IH]; intros acc; simpl.
  - split; [| lia]. intros a b. split; [by left |].
    by intros [? | (rel & ?%elem_of_nil & _)].
  - rewrite filter_cons. unfold edge_index_step at 2 4.
    destruct (m !! source_id rel) as [s|] eqn:Hs, (m !! target_id rel) as [t|] eqn:Ht.
    + destruct (IH (acc ++ [(s, t)] ++ [(t, s)])) as [IHin IHlen]. split.
      * intros a b. rewrite IHin. rewrite !elem_of_app, !list_elem_of_singleton. split.
        -- intros [[? | [[= -> ->] | [= -> ->]]] | (rel' & Hin & H)].
           ++ by left.
           ++ right. exists rel. split; [apply list_elem_of_here |]. left. by rewrite Hs, Ht.
           ++ right. exists rel. split; [apply list_elem_of_here |]. right. by rewrite Hs, Ht.
           ++ right. exists rel'. split; [by apply list_elem_of_further | done].
        -- intros [? | (rel' & [-> | Hin]%elem_of_cons & H)].
           ++ by left; left.
           ++ rewrite Hs, Ht in H. destruct H as [[[= ->] [= ->]] | [[= ->] [= ->]]].
              ** left. right. by left.
              ** left. right. by right.
           ++ right. by exists rel'.
      * rewrite IHlen, decide_True by (split; by eexists).
        rewrite !length_app. simpl. lia.
    + destruct (IH acc) as [IHin IHlen]. split.
      * intros a b. rewrite IHin. split.
        -- intros [? | (rel' & Hin & H)]; [by left |].
           right. exists rel'. split; [by apply list_elem_of_further | done].
        -- intros [? | (rel' & [-> | Hin]%elem_of_cons & H)]; [by left | |].
           ++ rewrite Ht in H. by destruct H as [[_ ?] | [_ ?]].
           ++ right. by exists rel'.
      * rewrite IHlen, decide_False; [done |]. by intros [_ [? ?]].
    + destruct (IH acc) as [IHin IHlen]. split.
      * intros a b. rewrite IHin. split.
        -- intros [? | (rel' & Hin & H)]; [by left |].
           right. exists rel'. split; [by apply list_elem_of_further | done].
        -- intros [? | (rel' & [-> | Hin]%elem_of_cons & H)]; [by left | |].
           ++ rewrite Hs in H. by destruct H as [[? _] | [? _]].
           ++ right. by exists rel'.
      * rewrite IHlen, decide_False; [done |]. by intros [[? ?] _].
    + destruct (IH acc) as [IHin IHlen]. split.
      * intros a b. rewrite IHin. split.
        -- intros [? | (rel' & Hin & H)]; [by left |].
           right. exists rel'. split; [by apply list_elem_of_further | done].
        -- intros [? | (rel' & [-> | Hin]%elem_of_cons & H)]; [by left | |].
           ++ rewrite Hs in H. by destruct H as [[? _] | [? _]].
           ++ right. by exists rel'.
      * rewrite IHlen, decide_False; [done |]. by intros [[? ?] _].
Qed.

(** X19.  The index dictionary of [prepare_graph_data] sends an id to a
    position of [all_nodes] that holds this id, and knows exactly the ids of
    the three tables.  Every index in the edge list of [_build_edge_index]
    is such a position, every edge is listed in both directions, and the
    list has two entries for each relationship row whose two endpoints are
    ids of the tables: a row with an endpoint elsewhere, a department for
    instance, adds nothing. *)
Theorem build_edge_index_spec (data : Data) :
  (∀ n idx, node_to_idx data !! n = Some idx → all_nodes data !! idx = Some n) ∧
  (∀ n, is_Some (node_to_idx data !! n) ↔ n ∈ all_nodes data) ∧
  (∀ a b, (a, b) ∈ _build_edge_index data (node_to_idx data) →
     (a < length (all_nodes data))%nat ∧ (b < length (all_nodes data))%nat ∧
     (b, a) ∈ _build_edge_index data (node_to_idx data) ∧
     ∃ u v, all_nodes data !! a = Some u ∧ all_nodes data !! b = Some v ∧
            joined (data_relationships data) u v) ∧
  length (_build_edge_index data (node_to_idx data))
  = (2 * length (filter (λ rel, source_id rel ∈ all_nodes data
                                ∧ target_id rel ∈ all_nodes data)
                        (data_relationships data)))%nat.
Proof.
  split; [apply node_to_idx_lookup |]. split; [apply node_to_idx_is_Some |].
  unfold _build_edge_index.
  destruct (build_edge_index_from (node_to_idx data) (data_relationships data) [])
    as [Hin Hlen].
  split.
  - intros a b Hab.
    assert (Hba : (b, a) ∈ fold_left (edge_index_step (node_to_idx data))
                             (data_relationships data) []).
    { apply Hin. apply Hin in Hab as [?%elem_of_nil | (rel & Hrel & H)]; [done |].
      right. exists rel. split; [done | tauto]. }
    apply Hin in Hab as [?%elem_of_nil | (rel & Hrel & H)]; [done |].
    assert (Hlt : ∀ n idx, node_to_idx data !! n = Some idx →
                           (idx < length (all_nodes data))%nat).
    { intros n idx Hn%node_to_idx_lookup. by apply lookup_lt_Some in Hn. }
    destruct H as [[Hs Ht] | [Hs Ht]].
    + split; [by apply (Hlt _ _ Hs) |]. split; [by apply (Hlt _ _ Ht) |].
      split; [done |]. exists (source_id rel), (target_id rel).
      split; [by apply node_to_idx_lookup |]. split; [by apply node_to_idx_lookup |].
      exists rel. split; [done | by left].
    + split; [by apply (Hlt _ _ Ht) |]. split; [by apply (Hlt _ _ Hs) |].
      split; [done |]. exists (target_id rel), (source_id rel).
      split; [by apply node_to_idx_lookup |]. split; [by apply node_to_idx_lookup |].
      exists rel. split; [done | by right].
  - rewrite Hlen.
    rewrite (list_filter_iff
               (λ rel, is_Some (node_to_idx data !! source_id rel)
                       ∧ is_Some (node_to_idx data !! target_id rel))
               (λ rel, source_id rel ∈ all_nodes data ∧ target_id rel ∈ all_nodes data));
      [simpl; lia |].
    intros rel. by rewrite !node_to_idx_is_Some.
Qed.

Lemma build_edge_index_spec_witness :
  all_nodes issued_by_data !! 0%nat = Some "TEND_0001" ∧
  _build_edge_index issued_by_data (node_to_idx issued_by_data) = [].
Proof.
  destruct (build_edge_index_spec issued_by_data) as (Hidx & _ & _ & Hlen).
  split.
  - apply Hidx. by vm_compute.
  - apply nil_length_inv. rewrite Hlen. by vm_compute.
Defined.

(** * Instances *)

Lemma build_graph_edges_witness :
  adjacent (_build_networkx_graph [] [] [mkTender "TEND_0001" 1000]
              [mkRel "TEND_0001" "DEPT_01" "ISSUED_BY"]) "DEPT_01" "TEND_0001".
Proof.
  apply (proj1 (build_graph_edges [] [] [mkTender "TEND_0001" 1000]
                  [mkRel "TEND_0001" "DEPT_01" "ISSUED_BY"] "DEPT_01" "TEND_0001")).
  exists (mkRel "TEND_0001" "DEPT_01" "ISSUED_BY").
  split; [apply list_elem_of_here | by right].
Defined.

Lemma build_graph_degree_witness :
  ∃ N : gset string,
    (∀ v, v ∈ N ↔ joined (data_relationships shared_director_data) "DIR_X" v) ∧
    degree (_build_networkx_graph (data_companies shared_director_data)
              (data_directors shared_director_data) (data_tenders shared_director_data)
              (data_relationships shared_director_data)) "DIR_X"
    = (size N + (if decide ("DIR_X" ∈ N) then 1 else 0))%nat.
Proof.
  exact (build_graph_degree (data_companies shared_director_data)
           (data_directors shared_director_data) (data_tenders shared_director_data)
           (data_relationships shared_director_data) "DIR_X").
Defined.

Lemma calculate_all_risk_scores_spec_witness :
  ∃ self, __init__ small_win_data = Some self ∧
    ∃ rows, calculate_all_risk_scores self = Some rows ∧
      row_company_id <$> rows = ["COMP_A"; "COMP_B"].
Proof.
  eexists. split; [reflexivity |].
  match goal with |- ∃ rows, calculate_all_risk_scores ?s = _ ∧ _ =>
    destruct (calculate_all_risk_scores_spec s) as (rows & Hrows & Hids & _)
  end.
  exists rows. split; [exact Hrows | exact Hids].
Defined.

Lemma group_by_community_spec_witness :
  (0%Z, ["COMP_1"; "COMP_2"; "COMP_3"; "COMP_4"; "DIR_1"])
  ∈ group_by_community (cluster_partition nx_Graph).
Proof.
  apply (proj1 (proj2 (group_by_community_spec (cluster_partition nx_Graph)))).
  split; [by vm_compute | done].
Defined.

Lemma shared_directors_mutual_witness :
  ∃ self, __init__ shared_director_data = Some self ∧
    "COMP_A" ∈ shared_companies self "COMP_B" (director_ids self "COMP_B").
Proof.
  eexists. split; [reflexivity |].
  match goal with |- _ ∈ shared_companies ?s _ _ =>
    apply (proj1 (proj1 (shared_directors_mutual s "COMP_A" "COMP_B")))
  end.
  apply (bool_decide_unpack _). by vm_compute.
Defined.
